(** * Inclined rail simulation: the physics engine of MondraDeveloper_clipboard.py

    The program is a module-level script: its state is a set of global
    variables, its operations are the slider and button callbacks and the
    body of the [while True] loop.  The embedding keeps that shape: one
    record [State] for the globals the engine reads and writes, one function
    per callback, and [tick] for one pass through the loop body.

    Numbers.  Python floats are modelled by the real numbers of the Standard
    Library ([sin], [cos], [PI] are the real ones), so every statement proved
    over [State] is a statement about the program in exact arithmetic.  The
    clock of the loop ([t], [elapsed_time], [last_record_time]) only uses
    addition, subtraction and comparison, which binary64 floats provide in
    the kernel: module [Clock64] models that slice bit for bit, for the one
    property (the sampling cadence) that rounding decides.

    Presentation objects (canvas, rail box, ball, labels, buttons, the HTML
    table) are left out; no engine variable is read back from them except
    [rail.axis], which only positions the ball. *)

From Stdlib Require Import Reals Lra Lia ZArith List Bool.
From Stdlib Require Import Floats.
Import ListNotations.

Set Warnings "-inexact-float".

Open Scope R_scope.

(** ** Decisions on reals as booleans *)

Definition Rltb (x y : R) : bool := if Rlt_dec x y then true else false.
Definition Rleb (x y : R) : bool := if Rle_dec x y then true else false.
Definition Rgeb (x y : R) : bool := if Rge_dec x y then true else false.

(** ** round(x, ndigits)

    Python rounds to the nearest multiple of 10^-ndigits, ties to even. *)

Definition round_half_even (y : R) : Z :=
  let f := Int_part y in
  let r := y - IZR f in
  if Rltb r (1 / 2) then f
  else if Rltb (1 / 2) r then (f + 1)%Z
  else if Z.even f then f else (f + 1)%Z.

Definition round (x : R) (ndigits : nat) : R :=
  IZR (round_half_even (x * 10 ^ ndigits)) / 10 ^ ndigits.

(** ** Simulation parameters (module level, lines 85-112) *)

Definition ball_radius : R := 0.1.
Definition dt          : R := 0.0025.
Definition rho_air     : R := 1.225.
Definition Cd_sphere   : R := 0.47.
Definition area_cross  : R := PI * ball_radius ^ 2.
Definition mu_sa       : R := 0.2.
Definition volume      : R := 4 / 3 * PI * ball_radius ^ 3.

(** [rho_sphere = mass / volume] is evaluated once, when the module is
    loaded, with the start-up value [mass = 1]; no callback assigns it
    again. *)
Definition startup_mass : R := 1.
Definition rho_sphere   : R := startup_mass / volume.

Definition vector : Type := (R * R * R)%type.
Definition fixed_point : vector := (5, 0, 0).

Definition radians (deg : R) : R := deg * PI / 180.

(** ** The sample log

    The fifteen parallel lists [times], [heights], ... are only ever
    appended to together and cleared together; one row of all of them is a
    [Sample], the lists are one list of rows, oldest first. *)

Record Sample : Type := mkSample {
  smp_time          : R;
  smp_height        : R;
  smp_speed         : R;
  smp_gravity       : R;
  smp_force_g       : R;
  smp_force_f       : R;
  smp_force_d       : R;
  smp_acceleration  : R;
  smp_energy_pe     : R;
  smp_energy_ke     : R;
  smp_energy_te     : R;
  smp_friction_loss : R;
  smp_drag_loss     : R;
  smp_h_speed       : R;
  smp_v_speed       : R
}.

(** ** The globals of the engine *)

Record State : Type := mkState {
  (* configuration, written by the sliders *)
  rail_length      : R;
  g                : R;
  mass             : R;
  angle            : R;
  initial_velocity : R;
  (* geometry, written by update_simulation *)
  rail_start       : vector;
  angle_rad        : R;
  (* simulation state *)
  t                : R;
  elapsed_time     : R;
  last_record_time : R;
  speed            : R;
  s                : R;
  drag_loss        : R;
  friction_loss    : R;
  running          : bool;
  (* telemetry of the last pass through the loop *)
  Fg_par           : R;
  F_fric           : R;
  F_drag           : R;
  acceleration     : R;
  (* the data arrays *)
  samples          : list Sample
}.

(** *** calculate_rail_geometry (lines 123-142) *)

Definition calculate_rail_geometry (st : State) (angle : R) : vector * R :=
  let angle_rad := radians angle in
  let height    := rail_length st * sin angle_rad in
  let base      := rail_length st * cos angle_rad in
  let start_pt  := (fst (fst fixed_point) - base, height, 0) in
  (start_pt, angle_rad).

(** The state when the loop is entered (lines 85-101, 145).  The telemetry
    globals do not exist yet at that point; they are read only after a pass
    or a reset has assigned them, and start here at the value reset gives
    them. *)
Definition initial_state : State :=
  let st0 :=
    {| rail_length := 10; g := 9.81; mass := 1; angle := 30;
       initial_velocity := 0;
       rail_start := (0, 0, 0); angle_rad := 0;
       t := 0; elapsed_time := 0; last_record_time := - 0.1;
       speed := 0; s := 0; drag_loss := 0; friction_loss := 0;
       running := false;
       Fg_par := 0; F_fric := 0; F_drag := 0; acceleration := 0;
       samples := [] |} in
  let '(start_pt, a) := calculate_rail_geometry st0 30 in
  {| rail_length := 10; g := 9.81; mass := 1; angle := 30;
     initial_velocity := 0;
     rail_start := start_pt; angle_rad := a;
     t := 0; elapsed_time := 0; last_record_time := - 0.1;
     speed := 0; s := 0; drag_loss := 0; friction_loss := 0;
     running := false;
     Fg_par := 0; F_fric := 0; F_drag := 0; acceleration := 0;
     samples := [] |}.

(** ** Callbacks *)

(** update_simulation (lines 197-223): recomputes the geometry; the rest of
    its body moves presentation objects. *)
Definition update_simulation (st : State) : State :=
  let '(start_pt, a) := calculate_rail_geometry st (angle st) in
  {| rail_length := rail_length st; g := g st; mass := mass st;
     angle := angle st; initial_velocity := initial_velocity st;
     rail_start := start_pt; angle_rad := a;
     t := t st; elapsed_time := elapsed_time st;
     last_record_time := last_record_time st;
     speed := speed st; s := s st; drag_loss := drag_loss st;
     friction_loss := friction_loss st; running := running st;
     Fg_par := Fg_par st; F_fric := F_fric st; F_drag := F_drag st;
     acceleration := acceleration st; samples := samples st |}.

Definition set_angle (v : R) (st : State) : State :=
  {| rail_length := rail_length st; g := g st; mass := mass st;
     angle := v; initial_velocity := initial_velocity st;
     rail_start := rail_start st; angle_rad := angle_rad st;
     t := t st; elapsed_time := elapsed_time st;
     last_record_time := last_record_time st;
     speed := speed st; s := s st; drag_loss := drag_loss st;
     friction_loss := friction_loss st; running := running st;
     Fg_par := Fg_par st; F_fric := F_fric st; F_drag := F_drag st;
     acceleration := acceleration st; samples := samples st |}.

Definition set_rail_length (v : R) (st : State) : State :=
  {| rail_length := v; g := g st; mass := mass st;
     angle := angle st; initial_velocity := initial_velocity st;
     rail_start := rail_start st; angle_rad := angle_rad st;
     t := t st; elapsed_time := elapsed_time st;
     last_record_time := last_record_time st;
     speed := speed st; s := s st; drag_loss := drag_loss st;
     friction_loss := friction_loss st; running := running st;
     Fg_par := Fg_par st; F_fric := F_fric st; F_drag := F_drag st;
     acceleration := acceleration st; samples := samples st |}.

(** update_angle (lines 225-235) *)
Definition update_angle (slider_value : R) (st : State) : State :=
  update_simulation (set_angle slider_value st).

(** update_length (lines 237-247) *)
Definition update_length (slider_value : R) (st : State) : State :=
  update_simulation (set_rail_length slider_value st).

(** update_gravity (lines 249-258) *)
Definition update_gravity (slider_value : R) (st : State) : State :=
  {| rail_length := rail_length st; g := slider_value; mass := mass st;
     angle := angle st; initial_velocity := initial_velocity st;
     rail_start := rail_start st; angle_rad := angle_rad st;
     t := t st; elapsed_time := elapsed_time st;
     last_record_time := last_record_time st;
     speed := speed st; s := s st; drag_loss := drag_loss st;
     friction_loss := friction_loss st; running := running st;
     Fg_par := Fg_par st; F_fric := F_fric st; F_drag := F_drag st;
     acceleration := acceleration st; samples := samples st |}.

(** update_mass (lines 260-270) *)
Definition update_mass (slider_value : R) (st : State) : State :=
  update_simulation
    {| rail_length := rail_length st; g := g st; mass := slider_value;
       angle := angle st; initial_velocity := initial_velocity st;
       rail_start := rail_start st; angle_rad := angle_rad st;
       t := t st; elapsed_time := elapsed_time st;
       last_record_time := last_record_time st;
       speed := speed st; s := s st; drag_loss := drag_loss st;
       friction_loss := friction_loss st; running := running st;
       Fg_par := Fg_par st; F_fric := F_fric st; F_drag := F_drag st;
       acceleration := acceleration st; samples := samples st |}.

(** update_initial_velocity (lines 272-283): [global initial_velocity,
    speed]; both are assigned. *)
Definition update_initial_velocity (slider_value : R) (st : State) : State :=
  update_simulation
    {| rail_length := rail_length st; g := g st; mass := mass st;
       angle := angle st; initial_velocity := slider_value;
       rail_start := rail_start st; angle_rad := angle_rad st;
       t := t st; elapsed_time := elapsed_time st;
       last_record_time := last_record_time st;
       speed := slider_value; s := s st; drag_loss := drag_loss st;
       friction_loss := friction_loss st; running := running st;
       Fg_par := Fg_par st; F_fric := F_fric st; F_drag := F_drag st;
       acceleration := acceleration st; samples := samples st |}.

(** reset_simulation (lines 285-330).  [running] is in the function's
    [global] list but the body never assigns it. *)
Definition reset_simulation (st : State) : State :=
  {| rail_length := rail_length st; g := g st; mass := mass st;
     angle := angle st; initial_velocity := initial_velocity st;
     rail_start := rail_start st; angle_rad := angle_rad st;
     t := 0; elapsed_time := 0;
     last_record_time := - 0.1;
     speed := initial_velocity st; s := 0; drag_loss := 0;
     friction_loss := 0; running := running st;
     Fg_par := 0; F_fric := 0; F_drag := 0;
     acceleration := 0; samples := [] |}.

(** toggle_running (lines 333-349) *)
Definition toggle_running (st : State) : State :=
  {| rail_length := rail_length st; g := g st; mass := mass st;
     angle := angle st; initial_velocity := initial_velocity st;
     rail_start := rail_start st; angle_rad := angle_rad st;
     t := t st; elapsed_time := elapsed_time st;
     last_record_time := last_record_time st;
     speed := speed st; s := s st; drag_loss := drag_loss st;
     friction_loss := friction_loss st; running := negb (running st);
     Fg_par := Fg_par st; F_fric := F_fric st; F_drag := F_drag st;
     acceleration := acceleration st; samples := samples st |}.

(** ** One pass through the main loop (lines 546-674) *)

(** Forces, as the loop computes them from the globals (lines 555-568). *)
Definition g_eff (st : State) : R := g st * (1 - rho_air / rho_sphere).

Definition gravity_parallel (st : State) : R :=
  mass st * g_eff st * sin (angle_rad st).

Definition normal_force (st : State) : R :=
  mass st * g_eff st * cos (angle_rad st).

Definition friction_force (st : State) : R :=
  if Rltb (angle st) 90 then mu_sa * normal_force st else 0.

Definition drag_force (st : State) : R :=
  0.5 * rho_air * Cd_sphere * area_cross * speed st ^ 2.

(** [times[-1]], when the list is not empty. *)
Definition last_time (l : list Sample) : option R :=
  match rev l with
  | [] => None
  | x :: _ => Some (smp_time x)
  end.

(** The row forced at the end of the rail (lines 607-623). *)
Definition terminal_row (final_time g Fg Ff Fd a m v fl dl ar : R) : Sample :=
  {| smp_time := final_time;
     smp_height := 0;
     smp_speed := round v 2;
     smp_gravity := g;
     smp_force_g := round Fg 2;
     smp_force_f := round Ff 2;
     smp_force_d := round Fd 2;
     smp_acceleration := round a 2;
     smp_energy_pe := 0;
     smp_energy_ke := round (0.5 * m * v ^ 2) 2;
     smp_energy_te := round (0.5 * m * v ^ 2) 2;
     smp_friction_loss := round fl 2;
     smp_drag_loss := round dl 2;
     smp_h_speed := round (v * cos ar) 2;
     smp_v_speed := round (v * sin ar) 2 |}.

(** The row recorded every 0.1 s (lines 652-668). *)
Definition regular_row
  (elapsed height g Fg Ff Fd a PE KE TE v fl dl H_speed V_speed : R) : Sample :=
  {| smp_time := round elapsed 1;
     smp_height := round height 2;
     smp_speed := round v 2;
     smp_gravity := g;
     smp_force_g := round Fg 2;
     smp_force_f := round Ff 2;
     smp_force_d := round Fd 2;
     smp_acceleration := round a 2;
     smp_energy_pe := round PE 2;
     smp_energy_ke := round KE 2;
     smp_energy_te := round TE 2;
     smp_friction_loss := round fl 2;
     smp_drag_loss := round dl 2;
     smp_h_speed := round H_speed 2;
     smp_v_speed := round V_speed 2 |}.

(** The test of line 650. *)
Definition record_due (elapsed last : R) : bool := Rgeb (elapsed - last) 0.1.

(** [tick st] is the loop body run once on the globals [st].  [None] stands
    for the one exception the body can raise, the division by [mass] of
    line 581. *)
Definition tick (st : State) : option State :=
  if negb (running st) then Some st
  else
    let Fg := gravity_parallel st in
    let Ff := friction_force st in
    let Fd := drag_force st in
    let drag_loss' := drag_loss st + Fd * speed st * dt in
    let friction_loss' := friction_loss st + Ff * speed st * dt in
    let F_net := Fg - Ff - Fd in
    if Req_dec_T (mass st) 0 then None
    else
      let a := F_net / mass st in
      let v1 := speed st + a * dt in
      let v := if Rltb v1 0 then 0 else v1 in
      let s' := s st + v * dt in
      let on_rail := Rleb s' (rail_length st) in
      let t' := if on_rail then t st + dt else t st in
      let elapsed' := if on_rail then t' else elapsed_time st in
      let final_time := round (elapsed_time st + dt) 2 in
      let samples1 :=
        if on_rail then samples st
        else
          match last_time (samples st) with
          | Some x =>
              if Rltb x final_time
              then samples st ++
                   [terminal_row final_time (g st) Fg Ff Fd a (mass st) v
                                 friction_loss' drag_loss' (angle_rad st)]
              else samples st
          | None =>
              samples st ++
              [terminal_row final_time (g st) Fg Ff Fd a (mass st) v
                            friction_loss' drag_loss' (angle_rad st)]
          end in
      let height := Rmax (rail_length st - s') 0 * sin (angle_rad st) in
      let PE := mass st * g st * height in
      let KE := 0.5 * mass st * v ^ 2 in
      let TE := PE + KE in
      let H_speed := v * cos (angle_rad st) in
      let V_speed := v * sin (angle_rad st) in
      let due := record_due elapsed' (last_record_time st) in
      Some
        {| rail_length := rail_length st; g := g st; mass := mass st;
           angle := angle st; initial_velocity := initial_velocity st;
           rail_start := rail_start st; angle_rad := angle_rad st;
           t := t'; elapsed_time := elapsed';
           last_record_time :=
             if due then elapsed' else last_record_time st;
           speed := v; s := s'; drag_loss := drag_loss';
           friction_loss := friction_loss'; running := on_rail;
           Fg_par := Fg; F_fric := Ff; F_drag := Fd;
           acceleration := a;
           samples :=
             if due
             then samples1 ++
                  [regular_row elapsed' height (g st) Fg Ff Fd a PE KE TE v
                               friction_loss' drag_loss' H_speed V_speed]
             else samples1 |}.

(** [n] passes in a row; an exception in one of them ends the program. *)
Fixpoint ticks (n : nat) (st : State) : option State :=
  match n with
  | O => Some st
  | S n' =>
      match tick st with
      | Some st' => ticks n' st'
      | None => None
      end
  end.

(** The height the loop displays and records (line 633). *)
Definition height_of (st : State) : R :=
  Rmax (rail_length st - s st) 0 * sin (angle_rad st).

(** ** Reachable states

    The sliders only deliver values of their range (lines 355-371); the
    buttons and the loop are unconstrained. *)

Inductive reachable : State -> Prop :=
| reach_init : reachable initial_state
| reach_angle st v :
    reachable st -> 0 <= v <= 90 -> reachable (update_angle v st)
| reach_length st v :
    reachable st -> 1 <= v <= 1000 -> reachable (update_length v st)
| reach_gravity st v :
    reachable st -> 1 <= v <= 274 -> reachable (update_gravity v st)
| reach_mass st v :
    reachable st -> 1 <= v <= 100 -> reachable (update_mass v st)
| reach_initial_velocity st v :
    reachable st -> 0 <= v <= 1000 ->
    reachable (update_initial_velocity v st)
| reach_reset st : reachable st -> reachable (reset_simulation st)
| reach_toggle st : reachable st -> reachable (toggle_running st)
| reach_tick st st' : reachable st -> tick st = Some st' -> reachable st'.

(** What holds of the globals in every reachable state. *)
Record state_inv (st : State) : Prop := mkInv {
  inv_length : 1 <= rail_length st <= 1000;
  inv_g      : 1 <= g st <= 274;
  inv_mass   : 1 <= mass st <= 100;
  inv_angle  : 0 <= angle st <= 90;
  inv_v0     : 0 <= initial_velocity st <= 1000;
  inv_rad    : angle_rad st = radians (angle st);
  inv_speed  : 0 <= speed st;
  inv_s      : 0 <= s st;
  inv_drag   : 0 <= drag_loss st;
  inv_fric   : 0 <= friction_loss st;
  inv_clock  : elapsed_time st = t st
}.

(** ** Scenarios used below *)

(** A running engine launched at 7 m/s. *)
Definition launched_state : State :=
  toggle_running (update_initial_velocity 7 initial_state).

(** The engine after: angle slider to 0, Reset, Play. *)
Definition level_rest_state : State :=
  toggle_running (reset_simulation (update_angle 0 initial_state)).

(** The engine after: initial velocity 1000 m/s, rail length 1 m, Reset,
    Play. *)
Definition fast_short_state : State :=
  toggle_running
    (reset_simulation
       (update_length 1 (update_initial_velocity 1000 initial_state))).

(** The engine after: mass slider to 2 kg, Play. *)
Definition heavy_state : State :=
  toggle_running (update_mass 2 initial_state).

(** ** Setters and the motion state *)

(** The slice of the state that the setters are claimed to leave alone. *)
Definition same_motion (st st' : State) : Prop :=
  elapsed_time st' = elapsed_time st /\ s st' = s st /\
  speed st' = speed st /\ friction_loss st' = friction_loss st /\
  drag_loss st' = drag_loss st.

(** ** The clock in binary64

  The clock variables of the loop as the interpreter holds them: IEEE 754
  binary64 numbers, with the literals 0.0025, 0.1 and -0.1 rounded to the
  nearest one.  [pass] is what a pass of a running engine that stays on
  the rail does to them: [t += dt; elapsed_time = t] (lines 597-598), the
  test [elapsed_time - last_record_time >= 0.1] (line 650), one more row
  in every data array and [last_record_time = elapsed_time] (line 674). *)

Module Clock64.

Record clock : Type := mkClock {
  t                : float;
  elapsed_time     : float;
  last_record_time : float;
  rows             : nat
}.

Definition dt : float := 0.0025%float.

(** The clock after reset_simulation (lines 298-305, 315). *)
Definition reset : clock :=
  {| t := 0%float; elapsed_time := 0%float;
     last_record_time := (-0.1)%float; rows := 0 |}.

Definition record_due (elapsed last : float) : bool :=
  (0.1 <=? elapsed - last)%float.

Definition pass (c : clock) : clock :=
  let t' := (t c + dt)%float in
  let elapsed' := t' in
  if record_due elapsed' (last_record_time c)
  then {| t := t'; elapsed_time := elapsed';
          last_record_time := elapsed'; rows := S (rows c) |}
  else {| t := t'; elapsed_time := elapsed';
          last_record_time := last_record_time c; rows := rows c |}.

Definition passes (n : N) (c : clock) : clock := N.iter n pass c.

(** The integer part of a finite binary64 number. *)
Definition floor (x : float) : Z :=
  match Prim2SF x with
  | S754_finite sg m e => Z.shiftl (if sg then Z.neg m else Z.pos m) e
  | _ => 0%Z
  end.

(** floor(T / 0.1) for the elapsed time of the clock. *)
Definition intervals (c : clock) : Z :=
  floor (elapsed_time c / 0.1)%float.

End Clock64.

(** ** Drawing the rail and the ball

    The quantities the loop and update_simulation hand to the rail box and
    the ball.  [rail.axis] is assigned [rail_end - rail_start] wherever
    [rail_start] is assigned (lines 145/153 and 207/211), so it is a function
    of the globals. *)

Definition show_radius : R := 1.
Definition rail_end : vector := fixed_point.

Definition vadd (a b : vector) : vector :=
  let '(ax, ay, az) := a in
  let '(bx, by_, bz) := b in
  (ax + bx, ay + by_, az + bz).

Definition vsub (a b : vector) : vector :=
  let '(ax, ay, az) := a in
  let '(bx, by_, bz) := b in
  (ax - bx, ay - by_, az - bz).

Definition vscale (v : vector) (k : R) : vector :=
  let '(x, y, z) := v in (x * k, y * k, z * k).

Definition mag (v : vector) : R :=
  let '(x, y, z) := v in R_sqrt.sqrt (x * x + y * y + z * z).

(** [v.norm()]: the unit vector of [v], the zero vector for the zero
    vector. *)
Definition norm (v : vector) : vector :=
  if Req_dec_T (mag v) 0 then (0, 0, 0) else vscale v (/ mag v).

Definition rail_axis (st : State) : vector := vsub rail_end (rail_start st).

(** The ball position of a pass that stays on the rail (lines 595-596). *)
Definition ball_on_rail (st : State) : vector :=
  let disp_vec := vscale (norm (rail_axis st)) (s st) in
  vadd (vadd (rail_start st) disp_vec) (0, show_radius, 0).

(** The ball position of a pass that leaves the rail (line 600). *)
Definition ball_at_end : vector := vadd rail_end (0, show_radius, 0).

(** The configuration and the geometry, which only the sliders write. *)
Definition same_config (st st' : State) : Prop :=
  rail_length st' = rail_length st /\ g st' = g st /\
  mass st' = mass st /\ angle st' = angle st /\
  initial_velocity st' = initial_velocity st /\
  rail_start st' = rail_start st /\ angle_rad st' = angle_rad st.

(** The test of line 608 on the rows recorded so far. *)
Definition final_row_due (l : list Sample) (final_time : R) : bool :=
  match last_time l with
  | Some x => Rltb x final_time
  | None => true
  end.

(** The globals right after Reset, with the engine running. *)
Definition freshly_reset (st : State) : Prop :=
  t st = 0 /\ elapsed_time st = 0 /\ last_record_time st = - 0.1 /\
  samples st = [] /\ running st = true.

(** The two rows a pass can append, written from the globals before the
    pass ([st]) and after it ([st']). *)
Definition final_row_of (st st' : State) : Sample :=
  terminal_row (round (elapsed_time st + dt) 2) (g st) (Fg_par st')
    (F_fric st') (F_drag st') (acceleration st') (mass st) (speed st')
    (friction_loss st') (drag_loss st') (angle_rad st).

Definition regular_row_of (st' : State) : Sample :=
  let height := height_of st' in
  let PE := mass st' * g st' * height in
  let KE := 0.5 * mass st' * speed st' ^ 2 in
  regular_row (elapsed_time st') height (g st') (Fg_par st') (F_fric st')
    (F_drag st') (acceleration st') PE KE (PE + KE) (speed st')
    (friction_loss st') (drag_loss st')
    (speed st' * cos (angle_rad st')) (speed st' * sin (angle_rad st')).

(** The engine after: angle slider to 0, initial velocity 3 m/s, Reset,
    Play. *)
Definition rolling_level_state : State :=
  toggle_running
    (reset_simulation
       (update_initial_velocity 3 (update_angle 0 initial_state))).

(** The engine after: angle slider to 90, Play. *)
Definition vertical_state : State :=
  toggle_running (update_angle 90 initial_state).

(** The effective gravity as the specification words it, with the density
    of a sphere of the mass in effect: g * (1 - rho_air / (mass / volume)).
    The loop does not compute this value (it computes [g_eff]); it is
    written down to compare the two. *)
Definition g_eff_spec (st : State) : R :=
  g st * (1 - rho_air / (mass st / volume)).

(** * Proofs *)

(** ** Decisions on reals *)

Lemma Rltb_true (x y : R) : Rltb x y = true <-> x < y.
Proof. unfold Rltb; destruct (Rlt_dec x y); split; intros; try easy. Qed.

Lemma Rltb_false (x y : R) : Rltb x y = false <-> y <= x.
Proof.
  unfold Rltb; destruct (Rlt_dec x y); split; intros; try easy; lra.
Qed.

Lemma Rleb_true (x y : R) : Rleb x y = true <-> x <= y.
Proof. unfold Rleb; destruct (Rle_dec x y); split; intros; try easy. Qed.

Lemma Rleb_false (x y : R) : Rleb x y = false <-> y < x.
Proof.
  unfold Rleb; destruct (Rle_dec x y); split; intros; try easy; lra.
Qed.

Lemma Rgeb_true (x y : R) : Rgeb x y = true <-> x >= y.
Proof. unfold Rgeb; destruct (Rge_dec x y); split; intros; try easy. Qed.

Lemma Rgeb_false (x y : R) : Rgeb x y = false <-> x < y.
Proof.
  unfold Rgeb; destruct (Rge_dec x y); split; intros; try easy; lra.
Qed.

(** ** Basic facts on the constants and the forces *)

Lemma volume_pos : 0 < volume.
Proof. unfold volume, ball_radius. pose proof PI_RGT_0. nra. Qed.

Lemma volume_small : volume <= 0.006.
Proof. unfold volume, ball_radius. pose proof PI_4. nra. Qed.

Lemma rho_sphere_pos : 0 < rho_sphere.
Proof.
  unfold rho_sphere, startup_mass. apply Rdiv_lt_0_compat;
    [lra | apply volume_pos].
Qed.

Lemma buoyancy_ratio : rho_air / rho_sphere = rho_air * volume.
Proof.
  unfold rho_sphere, startup_mass. pose proof volume_pos. field. lra.
Qed.

Lemma buoyancy_factor_bounds : 0.99 <= 1 - rho_air / rho_sphere < 1.
Proof.
  rewrite buoyancy_ratio. pose proof volume_pos. pose proof volume_small.
  unfold rho_air. split; nra.
Qed.

Lemma area_cross_bounds : 0 < area_cross <= 0.04.
Proof.
  unfold area_cross, ball_radius. pose proof PI_RGT_0. pose proof PI_4.
  split; nra.
Qed.

Lemma cos_radians_nonneg (a : R) : 0 <= a <= 90 -> 0 <= cos (radians a).
Proof.
  intros Ha. unfold radians. pose proof PI_RGT_0.
  apply cos_ge_0; nra.
Qed.

Lemma sin_radians_nonneg (a : R) : 0 <= a <= 90 -> 0 <= sin (radians a).
Proof.
  intros Ha. unfold radians. pose proof PI_RGT_0.
  apply sin_ge_0; nra.
Qed.

Lemma g_eff_pos (st : State) : 0 < g st -> 0 < g_eff st.
Proof.
  intros Hg. unfold g_eff. pose proof buoyancy_factor_bounds. nra.
Qed.

Lemma drag_force_nonneg (st : State) : 0 <= drag_force st.
Proof.
  unfold drag_force, rho_air, Cd_sphere. pose proof area_cross_bounds.
  pose proof (pow2_ge_0 (speed st)). nra.
Qed.

Lemma friction_force_nonneg (st : State) :
  state_inv st -> 0 <= friction_force st.
Proof.
  intros I. unfold friction_force.
  destruct (Rltb (angle st) 90); [|lra].
  unfold normal_force, mu_sa.
  pose proof (g_eff_pos st) as Hg. destruct I as [? Hgr Hm Ha ? Hrad ? ? ? ? ?].
  assert (0 <= cos (angle_rad st)) as Hc
    by (rewrite Hrad; now apply cos_radians_nonneg).
  assert (0 < g_eff st) as Hge by (apply Hg; lra).
  assert (0 <= mass st * g_eff st) by nra.
  nra.
Qed.

Lemma gravity_parallel_nonneg (st : State) :
  state_inv st -> 0 <= gravity_parallel st.
Proof.
  intros I. unfold gravity_parallel. rewrite (inv_rad st I).
  pose proof (sin_radians_nonneg _ (inv_angle st I)).
  assert (0 < g_eff st) by (apply g_eff_pos; destruct I; lra).
  assert (0 <= mass st * g_eff st) by (destruct I; nra).
  nra.
Qed.

Lemma friction_force_le (st : State) :
  state_inv st -> friction_force st <= mu_sa * (mass st * g st).
Proof.
  intros I. unfold friction_force, normal_force, mu_sa.
  assert (0 < mass st * g st) by (destruct I; nra).
  destruct (Rltb _ _); [|lra].
  pose proof (COS_bound (angle_rad st)) as [_ Hc].
  pose proof buoyancy_factor_bounds as Hb.
  pose proof (cos_radians_nonneg _ (inv_angle st I)) as Hc0.
  rewrite <- (inv_rad st I) in Hc0.
  assert (mass st * g_eff st <= mass st * g st).
  { unfold g_eff. rewrite <- Rmult_assoc.
    set (b := 1 - rho_air / rho_sphere) in *. nra. }
  assert (0 <= mass st * g_eff st).
  { assert (0 < g_eff st) by (apply g_eff_pos; destruct I; lra).
    destruct I; nra. }
  set (c := cos (angle_rad st)) in *. nra.
Qed.

(** The loop body on a running engine, field by field. *)
Lemma tick_running (st st' : State) :
  running st = true -> tick st = Some st' ->
  mass st <> 0 /\
  let a := (gravity_parallel st - friction_force st - drag_force st)
           / mass st in
  let v1 := speed st + a * dt in
  rail_length st' = rail_length st /\ g st' = g st /\ mass st' = mass st /\
  angle st' = angle st /\ initial_velocity st' = initial_velocity st /\
  angle_rad st' = angle_rad st /\
  Fg_par st' = gravity_parallel st /\ F_fric st' = friction_force st /\
  F_drag st' = drag_force st /\ acceleration st' = a /\
  drag_loss st' = drag_loss st + drag_force st * speed st * dt /\
  friction_loss st' = friction_loss st + friction_force st * speed st * dt /\
  speed st' = (if Rltb v1 0 then 0 else v1) /\
  s st' = s st + speed st' * dt /\
  running st' = Rleb (s st') (rail_length st) /\
  t st' = (if running st' then t st + dt else t st) /\
  elapsed_time st' = (if running st' then t st + dt else elapsed_time st).
Proof.
  intros Hrun Ht. unfold tick in Ht. rewrite Hrun in Ht. simpl in Ht.
  destruct (Req_dec_T (mass st) 0) as [|Hm]; [discriminate|].
  injection Ht as <-. simpl. repeat split; auto.
  now destruct (Rleb _ _).
Qed.

(** A running engine with a non-zero mass always completes the pass. *)
Lemma tick_defined (st : State) :
  mass st <> 0 -> exists st', tick st = Some st'.
Proof.
  intros Hm. unfold tick.
  destruct (negb (running st)); [eauto|].
  destruct (Req_dec_T (mass st) 0); [contradiction|eauto].
Qed.

Lemma tick_paused (st : State) : running st = false -> tick st = Some st.
Proof. intros H. unfold tick. now rewrite H. Qed.

Lemma update_simulation_inv (st : State) :
  1 <= rail_length st <= 1000 -> 1 <= g st <= 274 ->
  1 <= mass st <= 100 -> 0 <= angle st <= 90 ->
  0 <= initial_velocity st <= 1000 -> 0 <= speed st -> 0 <= s st ->
  0 <= drag_loss st -> 0 <= friction_loss st ->
  elapsed_time st = t st ->
  state_inv (update_simulation st).
Proof. intros. constructor; simpl; auto. Qed.

Lemma tick_inv (st st' : State) :
  state_inv st -> tick st = Some st' -> state_inv st'.
Proof.
  intros I Ht. destruct (running st) eqn:Hrun.
  - pose proof (friction_force_nonneg st I) as Hf.
    pose proof (drag_force_nonneg st) as Hd.
    destruct (tick_running st st' Hrun Ht)
      as (_ & Hl & Hg & Hm & Ha & Hv0 & Hrad & _ & _ & _ & _ &
          Hdl & Hfl & Hsp & Hs & _ & Ht' & He').
    destruct I as [Il Ig Im Ia Iv Irad Isp Is Id If Ic].
    assert (0 <= speed st') as Hsp0.
    { rewrite Hsp.
      match goal with |- context [Rltb ?x 0] =>
        destruct (Rltb x 0) eqn:E; [lra | apply Rltb_false in E; lra] end. }
    constructor; rewrite ?Hl, ?Hg, ?Hm, ?Ha, ?Hv0, ?Hrad; auto.
    + rewrite Hs. unfold dt. nra.
    + rewrite Hdl. unfold dt. assert (0 <= drag_force st * speed st) by nra.
      nra.
    + rewrite Hfl. unfold dt.
      assert (0 <= friction_force st * speed st) by nra. nra.
    + rewrite He', Ht'. destruct (running st'); auto.
  - rewrite (tick_paused st Hrun) in Ht. now injection Ht as <-.
Qed.

Lemma reachable_inv (st : State) : reachable st -> state_inv st.
Proof.
  induction 1 as [ | st v _ I Hv | st v _ I Hv | st v _ I Hv | st v _ I Hv
                 | st v _ I Hv | st _ I | st _ I | st st' _ I Ht ].
  - constructor; simpl; lra.
  - destruct I. apply update_simulation_inv; simpl; auto.
  - destruct I. apply update_simulation_inv; simpl; auto.
  - destruct I. constructor; simpl; auto.
  - destruct I. apply update_simulation_inv; simpl; auto.
  - destruct I. apply update_simulation_inv; simpl; tauto.
  - destruct I. constructor; simpl; auto; try lra.
  - destruct I. constructor; simpl; auto.
  - eapply tick_inv; eauto.
Qed.

(** ** Reset *)

(** What reset_simulation assigns, in every state: the clock, the
    displacement, the speed, both losses and the data arrays.  [running] is
    passed through. *)
Lemma reset_simulation_post (st : State) :
  elapsed_time (reset_simulation st) = 0 /\
  s (reset_simulation st) = 0 /\
  speed (reset_simulation st) = initial_velocity st /\
  friction_loss (reset_simulation st) = 0 /\
  drag_loss (reset_simulation st) = 0 /\
  samples (reset_simulation st) = [] /\
  running (reset_simulation st) = running st.
Proof. repeat split. Qed.

(** C3.  Pressing Reset while the simulation runs: time, displacement,
    speed, both losses and the log are reset, but the engine is still
    running afterwards, although the docstring of reset_simulation says the
    function pauses the simulation. *)
Theorem reset_while_running_keeps_running :
  let st := reset_simulation (toggle_running initial_state) in
  elapsed_time st = 0 /\ s st = 0 /\ speed st = 0 /\
  friction_loss st = 0 /\ drag_loss st = 0 /\ samples st = [] /\
  running st = true.
Proof. repeat split. Qed.

(** ** Setters *)

(** C4, as stated, fails for the initial-velocity slider: it overwrites the
    current speed. *)
Lemma initial_velocity_setter_changes_speed :
  ~ same_motion initial_state (update_initial_velocity 5 initial_state).
Proof.
  unfold same_motion; simpl. intros (_ & _ & H & _). lra.
Qed.

(** C4, amended.  The angle, length, gravity and mass setters leave elapsed
    time, displacement, speed and both cumulative losses unchanged; the
    initial-velocity setter leaves elapsed time, displacement and both
    losses unchanged and sets the current speed to the slider value. *)
Theorem setters_frame (st : State) (v : R) :
  same_motion st (update_angle v st) /\
  same_motion st (update_length v st) /\
  same_motion st (update_gravity v st) /\
  same_motion st (update_mass v st) /\
  (elapsed_time (update_initial_velocity v st) = elapsed_time st /\
   s (update_initial_velocity v st) = s st /\
   friction_loss (update_initial_velocity v st) = friction_loss st /\
   drag_loss (update_initial_velocity v st) = drag_loss st /\
   speed (update_initial_velocity v st) = v /\
   initial_velocity (update_initial_velocity v st) = v).
Proof. unfold same_motion; simpl. repeat split. Qed.

(** ** Speed *)

(** C5.  The speed is never negative: in every reachable state, and after
    every pass of the loop from it, where a negative integrated speed is
    replaced by 0. *)
Theorem speed_never_negative (st : State) :
  reachable st ->
  0 <= speed st /\
  forall st', tick st = Some st' ->
    0 <= speed st' /\
    (running st = true ->
     speed st' = Rmax 0 (speed st + acceleration st' * dt)).
Proof.
  intros Hr. pose proof (reachable_inv st Hr) as I. split.
  - apply (inv_speed st I).
  - intros st' Ht. split.
    + apply (inv_speed st'). exact (tick_inv st st' I Ht).
    + intros Hrun.
      destruct (tick_running st st' Hrun Ht)
        as (_ & _ & _ & _ & _ & _ & _ & _ & _ & _ & Ha & _ & _ & Hsp & _).
      rewrite Hsp, Ha.
      match goal with |- context [Rltb ?x 0] =>
        destruct (Rltb x 0) eqn:E;
          [apply Rltb_true in E | apply Rltb_false in E] end.
      * rewrite Rmax_left; lra.
      * rewrite Rmax_right; lra.
Qed.

Lemma speed_never_negative_witness :
  0 <= speed (update_initial_velocity 7 initial_state).
Proof.
  refine (proj1 (speed_never_negative
                   (update_initial_velocity 7 initial_state) _)).
  apply reach_initial_velocity; [apply reach_init | lra].
Defined.

(** ** Cumulative losses *)

Lemma ticks_inv (n : nat) (st st' : State) :
  state_inv st -> ticks n st = Some st' -> state_inv st'.
Proof.
  revert st. induction n as [|n IH]; simpl; intros st I H.
  - now injection H as <-.
  - destruct (tick st) as [st1|] eqn:E; [|discriminate].
    apply (IH st1); auto. eapply tick_inv; eauto.
Qed.

Lemma tick_losses_le (st st' : State) :
  state_inv st -> tick st = Some st' ->
  friction_loss st <= friction_loss st' /\ drag_loss st <= drag_loss st'.
Proof.
  intros I Ht. destruct (running st) eqn:Hrun.
  - destruct (tick_running st st' Hrun Ht)
      as (_ & _ & _ & _ & _ & _ & _ & _ & _ & _ & _ & Hdl & Hfl & _).
    pose proof (friction_force_nonneg st I).
    pose proof (drag_force_nonneg st).
    pose proof (inv_speed st I).
    rewrite Hdl, Hfl. unfold dt.
    assert (0 <= friction_force st * speed st) by nra.
    assert (0 <= drag_force st * speed st) by nra.
    split; nra.
  - rewrite (tick_paused st Hrun) in Ht. injection Ht as <-. lra.
Qed.

(** C6.  Each pass of a running engine adds F_fric * speed * dt and
    F_drag * speed * dt, with the speed and the forces of the start of the
    pass; both increments are non-negative, and over any number of passes
    neither cumulative loss decreases. *)
Theorem cumulative_losses_monotone (st : State) :
  reachable st ->
  (forall st', running st = true -> tick st = Some st' ->
     friction_loss st' = friction_loss st + F_fric st' * speed st * dt /\
     drag_loss st' = drag_loss st + F_drag st' * speed st * dt /\
     0 <= F_fric st' * speed st * dt /\
     0 <= F_drag st' * speed st * dt) /\
  (forall n st', ticks n st = Some st' ->
     friction_loss st <= friction_loss st' /\
     drag_loss st <= drag_loss st').
Proof.
  intros Hr. pose proof (reachable_inv st Hr) as I. split.
  - intros st' Hrun Ht.
    destruct (tick_running st st' Hrun Ht)
      as (_ & _ & _ & _ & _ & _ & _ & _ & Hf & Hd & _ & Hdl & Hfl & _).
    pose proof (friction_force_nonneg st I).
    pose proof (drag_force_nonneg st).
    pose proof (inv_speed st I).
    rewrite Hf, Hd, Hdl, Hfl. unfold dt.
    assert (0 <= friction_force st * speed st) by nra.
    assert (0 <= drag_force st * speed st) by nra.
    repeat split; nra.
  - intros n. clear Hr. revert st I.
    induction n as [|n IH]; simpl; intros st I st' H.
    + injection H as <-. lra.
    + destruct (tick st) as [st1|] eqn:E; [|discriminate].
      pose proof (tick_losses_le st st1 I E).
      pose proof (IH st1 (tick_inv st st1 I E) st' H). lra.
Qed.

Lemma launched_state_reachable : reachable launched_state.
Proof.
  apply reach_toggle, reach_initial_velocity; [apply reach_init | lra].
Qed.

Lemma cumulative_losses_monotone_witness :
  exists st', ticks 1 launched_state = Some st' /\
    friction_loss launched_state <= friction_loss st' /\
    drag_loss launched_state <= drag_loss st'.
Proof.
  destruct (tick_defined launched_state) as [st' H]; [simpl; lra|].
  assert (ticks 1 launched_state = Some st') as H1
    by (simpl; now rewrite H).
  exists st'. split; [exact H1|].
  exact (proj2 (cumulative_losses_monotone launched_state
                  launched_state_reachable) 1%nat st' H1).
Defined.

(** ** Friction *)

(** The friction force of a pass, in terms of the effective gravity the
    loop computes: mu_sa * N below 90 degrees, 0 at 90 degrees. *)
Lemma friction_force_of_pass (st st' : State) :
  running st = true -> tick st = Some st' ->
  (angle st < 90 ->
   F_fric st' = mu_sa * mass st * g_eff st * cos (angle_rad st)) /\
  (angle st = 90 -> F_fric st' = 0).
Proof.
  intros Hrun Ht.
  destruct (tick_running st st' Hrun Ht)
    as (_ & _ & _ & _ & _ & _ & _ & _ & Hf & _).
  rewrite Hf. unfold friction_force, normal_force. split; intros Ha.
  - apply Rltb_true in Ha. rewrite Ha. ring.
  - assert (Rltb (angle st) 90 = false) as E by (apply Rltb_false; lra).
    now rewrite E.
Qed.

(** While the mass is the start-up mass the loop's effective gravity is the
    specified one, and the friction force is the specified
    mu * mass * g_eff * cos(angle_rad); at 90 degrees it is 0 for every
    mass. *)
Lemma friction_force_at_startup_mass (st st' : State) :
  running st = true -> tick st = Some st' ->
  (mass st = startup_mass -> angle st < 90 ->
   F_fric st' = mu_sa * mass st * g_eff_spec st * cos (angle_rad st)) /\
  (angle st = 90 -> F_fric st' = 0).
Proof.
  intros Hrun Ht.
  destruct (friction_force_of_pass st st' Hrun Ht) as (Hlt & H90).
  split; [|exact H90]. intros Hm Ha. rewrite (Hlt Ha).
  unfold g_eff, g_eff_spec, rho_sphere. now rewrite Hm.
Qed.

(** C7.  With the mass slider at 2 kg and the angle at 30 degrees the
    friction force of the pass is mu * mass * cos(angle_rad) times the
    effective gravity of a 1 kg sphere, which is not the specified
    mu * mass * g_eff * cos(angle_rad) with g_eff taken at the mass in
    effect. *)
Theorem friction_force_ignores_mass_change :
  exists st', tick heavy_state = Some st' /\
    mass heavy_state = 2 /\ angle heavy_state < 90 /\
    F_fric st' =
      mu_sa * mass heavy_state * g_eff heavy_state
      * cos (angle_rad heavy_state) /\
    F_fric st' <>
      mu_sa * mass heavy_state * g_eff_spec heavy_state
      * cos (angle_rad heavy_state).
Proof.
  destruct (tick_defined heavy_state) as [st' Ht]; [simpl; lra|].
  exists st'. split; [exact Ht|]. split; [reflexivity|].
  assert (angle heavy_state < 90) as Ha by (simpl; lra).
  split; [exact Ha|].
  destruct (friction_force_of_pass heavy_state st' eq_refl Ht) as (Hf & _).
  split; [exact (Hf Ha)|]. rewrite (Hf Ha).
  assert (0 < cos (angle_rad heavy_state)) as Hc.
  { simpl angle_rad. unfold radians. pose proof PI_RGT_0.
    apply cos_gt_0; lra. }
  assert (g_eff_spec heavy_state - g_eff heavy_state
          = 9.81 * (rho_air * volume / 2)) as Hd.
  { unfold g_eff, g_eff_spec, rho_sphere, startup_mass. simpl.
    pose proof volume_pos. field. lra. }
  assert (0 < rho_air * volume)
    by (pose proof volume_pos; unfold rho_air; nra).
  simpl mass. unfold mu_sa.
  set (c := cos (angle_rad heavy_state)) in *.
  set (a := g_eff heavy_state) in *.
  set (b := g_eff_spec heavy_state) in *.
  intros E. assert (0.2 * 2 * c * (b - a) = 0) as Z by lra.
  rewrite Hd in Z. nra.
Qed.

(** ** The level rail *)

(** On a level rail a sphere at rest stays at rest for one pass: the
    parallel gravity is 0, friction makes the net force negative, the
    negative speed is replaced by 0, and the engine keeps running. *)
Lemma level_rest_step (st : State) :
  state_inv st -> angle st = 0 -> speed st = 0 -> s st = 0 ->
  running st = true ->
  exists st', tick st = Some st' /\
    state_inv st' /\ angle st' = 0 /\ speed st' = 0 /\ s st' = 0 /\
    running st' = true /\ Fg_par st' = 0 /\
    t st' = t st + dt /\ acceleration st' < 0.
Proof.
  intros I Ha Hsp Hs Hrun.
  assert (mass st <> 0) as Hm by (destruct I; lra).
  destruct (tick_defined st Hm) as [st' Ht]. exists st'.
  split; [exact Ht|]. split; [exact (tick_inv st st' I Ht)|].
  destruct (tick_running st st' Hrun Ht)
    as (_ & Hl & _ & _ & Ha' & _ & _ & HFg & _ & _ & Hacc & _ & _ &
        Hsp' & Hs' & Hrun' & Ht' & _).
  assert (angle_rad st = 0) as Hrad
    by (rewrite (inv_rad st I), Ha; unfold radians; lra).
  assert (gravity_parallel st = 0) as HG
    by (unfold gravity_parallel; rewrite Hrad, sin_0; ring).
  assert (drag_force st = 0) as HD
    by (unfold drag_force; rewrite Hsp; ring).
  assert (0 < friction_force st) as HF.
  { unfold friction_force, normal_force.
    assert (Rltb (angle st) 90 = true) as E by (apply Rltb_true; lra).
    rewrite E, Hrad, cos_0. unfold mu_sa.
    assert (0 < g_eff st) by (apply g_eff_pos; destruct I; lra).
    assert (0 < mass st) by (destruct I; lra). nra. }
  assert (acceleration st' < 0) as Hneg.
  { rewrite Hacc, HG, HD.
    assert (0 < mass st) by (destruct I; lra).
    assert (0 < / mass st) by now apply Rinv_0_lt_compat.
    unfold Rdiv. nra. }
  assert (speed st' = 0) as Hv.
  { rewrite Hsp'. rewrite <- Hacc.
    assert (Rltb (speed st + acceleration st' * dt) 0 = true) as E
      by (apply Rltb_true; rewrite Hsp; unfold dt; nra).
    now rewrite E. }
  assert (s st' = 0) as Hs0 by (rewrite Hs', Hv, Hs; ring).
  assert (running st' = true) as Hr'.
  { rewrite Hrun', Hs0. apply Rleb_true. destruct I; lra. }
  repeat split; auto; try congruence.
  rewrite Ht', Hr'. reflexivity.
Qed.

(** C8.  With angle 0 and the sphere at rest at the start of the rail, for
    every number of passes: every pass completes, the parallel gravity is 0,
    speed and displacement stay 0, and the engine is still running (the end
    of the rail is never reached). *)
Theorem level_rail_never_moves (st : State) (n : nat) :
  reachable st -> angle st = 0 -> speed st = 0 -> s st = 0 ->
  running st = true ->
  exists st', ticks n st = Some st' /\
    speed st' = 0 /\ s st' = 0 /\ running st' = true /\
    gravity_parallel st' = 0 /\ ((0 < n)%nat -> Fg_par st' = 0) /\
    s st' < rail_length st'.
Proof.
  intros Hr Ha Hsp Hs Hrun. pose proof (reachable_inv st Hr) as I.
  clear Hr. revert st I Ha Hsp Hs Hrun.
  assert (forall st, state_inv st -> angle st = 0 ->
                     gravity_parallel st = 0) as HG.
  { intros st I Ha. unfold gravity_parallel.
    rewrite (inv_rad st I), Ha. unfold radians.
    replace (0 * PI / 180) with 0 by lra. rewrite sin_0. ring. }
  induction n as [|n IH]; intros st I Ha Hsp Hs Hrun.
  - exists st. simpl. repeat split; auto; [lia | destruct I; lra].
  - destruct (level_rest_step st I Ha Hsp Hs Hrun)
      as (st1 & Ht & I1 & Ha1 & Hsp1 & Hs1 & Hrun1 & HFg1 & _).
    destruct n as [|n'].
    + exists st1. simpl. rewrite Ht. repeat split; auto.
      destruct I1; lra.
    + destruct (IH st1 I1 Ha1 Hsp1 Hs1 Hrun1)
        as (st' & Hts & H1 & H2 & H3 & H4 & H5 & H6).
      exists st'. change (ticks (S (S n')) st)
        with (match tick st with Some x => ticks (S n') x | None => None end).
      rewrite Ht. repeat split; auto. intros _. apply H5. lia.
Qed.

Lemma level_rest_state_reachable : reachable level_rest_state.
Proof.
  apply reach_toggle, reach_reset, reach_angle; [apply reach_init | lra].
Qed.

Lemma level_rail_never_moves_witness :
  exists st', ticks 1000 level_rest_state = Some st' /\
    speed st' = 0 /\ s st' = 0 /\ running st' = true /\
    gravity_parallel st' = 0 /\ ((0 < 1000)%nat -> Fg_par st' = 0) /\
    s st' < rail_length st'.
Proof.
  apply (level_rail_never_moves level_rest_state 1000
           level_rest_state_reachable); reflexivity.
Defined.

(** ** Paused engine *)

(** C9.  A pass of the loop while [running] is false returns the globals
    unchanged (no field of the state, no row of the log), and from a
    reachable state a pass never raises. *)
Theorem tick_paused_is_noop (st : State) :
  (running st = false ->
   tick st = Some st /\ forall n, ticks n st = Some st) /\
  (reachable st -> exists st', tick st = Some st').
Proof.
  split.
  - intros Hrun. split; [now apply tick_paused|].
    induction n as [|n IH]; simpl; auto.
    now rewrite (tick_paused st Hrun).
  - intros Hr. apply tick_defined.
    destruct (reachable_inv st Hr); lra.
Qed.

Lemma tick_paused_is_noop_witness :
  tick initial_state = Some initial_state /\
  exists st', tick launched_state = Some st'.
Proof.
  split.
  - refine (proj1 (proj1 (tick_paused_is_noop initial_state) _)).
    reflexivity.
  - exact (proj2 (tick_paused_is_noop launched_state)
             launched_state_reachable).
Defined.

(** ** Displacement and the end of the rail *)

Lemma fast_short_state_reachable : reachable fast_short_state.
Proof.
  apply reach_toggle, reach_reset, reach_length;
    [apply reach_initial_velocity; [apply reach_init | lra] | lra].
Qed.

(** C1, as stated, fails: the first pass after that reset leaves the
    displacement above the rail length (about 2.4 m on a 1 m rail); the
    loop stops the engine but never assigns [s] the rail length. *)
Lemma displacement_overshoots :
  exists st', tick fast_short_state = Some st' /\
    running st' = false /\ rail_length st' < s st'.
Proof.
  pose proof fast_short_state_reachable as Hr.
  pose proof (reachable_inv _ Hr) as I.
  destruct (tick_defined fast_short_state) as [st' Ht]; [simpl; lra|].
  exists st'. split; [exact Ht|].
  destruct (tick_running fast_short_state st' eq_refl Ht)
    as (_ & Hl & _ & _ & _ & _ & _ & _ & _ & _ & _ & _ & _ &
        Hsp & Hs & Hrun & _).
  pose proof (gravity_parallel_nonneg _ I) as HG.
  assert (friction_force fast_short_state <= 2) as HF.
  { pose proof (friction_force_le _ I) as H. simpl in H.
    unfold mu_sa in H. lra. }
  assert (drag_force fast_short_state <= 11515) as HD.
  { unfold drag_force, rho_air, Cd_sphere. simpl speed.
    pose proof area_cross_bounds. nra. }
  simpl mass in Hsp. simpl speed in Hsp, Hs. simpl s in Hs.
  simpl rail_length in *.
  set (v1 := 1000 + _ * dt) in Hsp.
  assert (971 <= v1) as Hv1.
  { subst v1. unfold dt. unfold Rdiv. rewrite Rinv_1. nra. }
  assert (speed st' = v1) as Hv.
  { rewrite Hsp.
    assert (Rltb v1 0 = false) as E by (apply Rltb_false; lra).
    now rewrite E. }
  assert (1 < s st') as Hover by (rewrite Hs, Hv; unfold dt; nra).
  split; [|rewrite Hl; exact Hover].
  rewrite Hrun. apply Rleb_false. exact Hover.
Qed.

(** C1, amended.  In every reachable state the displacement is at least 0
    and the displayed height max(rail_length - s, 0) * sin(angle_rad) is at
    least 0.  A pass of a running engine adds speed * dt to the displacement
    without clamping it; the engine stops exactly when the new displacement
    is strictly above the rail length, and keeps running (and advances the
    clock by dt) when it is at most the rail length. *)
Theorem displacement_unclamped (st : State) :
  reachable st ->
  0 <= s st /\ 0 <= height_of st /\
  forall st', running st = true -> tick st = Some st' ->
    s st' = s st + speed st' * dt /\ s st <= s st' /\
    (running st' = false <-> rail_length st < s st') /\
    (running st' = true <-> s st' <= rail_length st) /\
    (running st' = true -> elapsed_time st' = elapsed_time st + dt).
Proof.
  intros Hr. pose proof (reachable_inv st Hr) as I.
  split; [apply (inv_s st I)|]. split.
  - unfold height_of. rewrite (inv_rad st I).
    pose proof (sin_radians_nonneg _ (inv_angle st I)).
    pose proof (Rmax_r (rail_length st - s st) 0). nra.
  - intros st' Hrun Ht.
    destruct (tick_running st st' Hrun Ht)
      as (_ & _ & _ & _ & _ & _ & _ & _ & _ & _ & _ & _ & _ &
          _ & Hs & Hrun' & _ & He).
    pose proof (inv_speed st' (tick_inv st st' I Ht)) as Hv.
    split; [exact Hs|]. split; [rewrite Hs; unfold dt; nra|].
    split; [|split].
    + rewrite Hrun'. apply Rleb_false.
    + rewrite Hrun'. apply Rleb_true.
    + intros E. rewrite E in He. rewrite He, (inv_clock st I). reflexivity.
Qed.

Lemma displacement_unclamped_witness :
  0 <= s fast_short_state /\ 0 <= height_of fast_short_state.
Proof.
  pose proof (displacement_unclamped fast_short_state
                fast_short_state_reachable) as H.
  exact (conj (proj1 H) (proj1 (proj2 H))).
Defined.

(** ** Effective gravity *)

(** The effective gravity of every pass uses the density of a sphere of the
    start-up mass. *)
Lemma g_eff_startup_mass (st : State) :
  g_eff st = g st * (1 - rho_air / (startup_mass / (4 / 3 * PI * ball_radius ^ 3))).
Proof. reflexivity. Qed.

(** C2.  With the mass slider at 2 kg the pass still computes the effective
    gravity from the density of a 1 kg sphere, which is not
    g * (1 - rho_air / (mass / volume)) for the mass in effect; the parallel
    gravity of the pass is built from that value. *)
Theorem g_eff_ignores_mass_change :
  exists st', tick heavy_state = Some st' /\
    mass heavy_state = 2 /\
    g_eff heavy_state = g heavy_state * (1 - rho_air / (1 / volume)) /\
    g_eff heavy_state <>
      g heavy_state * (1 - rho_air / (mass heavy_state / volume)) /\
    Fg_par st' =
      mass heavy_state * g_eff heavy_state * sin (angle_rad heavy_state).
Proof.
  destruct (tick_defined heavy_state) as [st' Ht]; [simpl; lra|].
  exists st'. split; [exact Ht|]. split; [reflexivity|].
  split; [reflexivity|]. split.
  - unfold g_eff, rho_sphere, startup_mass. simpl.
    pose proof volume_pos as Hv.
    replace (rho_air / (1 / volume)) with (rho_air * volume)
      by (field; lra).
    replace (rho_air / (2 / volume)) with (rho_air * volume / 2)
      by (field; lra).
    unfold rho_air. nra.
  - now destruct (tick_running heavy_state st' eq_refl Ht)
      as (_ & _ & _ & _ & _ & _ & _ & HFg & _).
Qed.

(** ** Recording *)

(** The recording step of a pass that stays on the rail: a row is appended
    exactly when the new elapsed time is at least 0.1 s past the last
    record time, and only then is the last record time moved. *)
Lemma tick_sampling (st st' : State) :
  running st = true -> tick st = Some st' -> running st' = true ->
  (elapsed_time st' - last_record_time st >= 0.1 ->
   last_record_time st' = elapsed_time st' /\
   exists row, samples st' = samples st ++ [row] /\
               smp_time row = round (elapsed_time st') 1) /\
  (elapsed_time st' - last_record_time st < 0.1 ->
   last_record_time st' = last_record_time st /\
   samples st' = samples st).
Proof.
  intros Hrun Ht Hrun'. unfold tick in Ht. rewrite Hrun in Ht. simpl in Ht.
  destruct (Req_dec_T (mass st) 0) as [|Hm]; [discriminate|].
  injection Ht as <-. simpl in *. rewrite Hrun'. split; intros Hd.
  - apply Rgeb_true in Hd. unfold record_due. rewrite Hd.
    split; [reflexivity|]. eexists. split; reflexivity.
  - apply Rgeb_false in Hd. unfold record_due. rewrite Hd. split; reflexivity.
Qed.

(** Once stopped, the engine stays as it is under further passes. *)
Lemma ticks_paused (n : nat) (st : State) :
  running st = false -> ticks n st = Some st.
Proof.
  intros H. induction n as [|n IH]; simpl; auto.
  now rewrite (tick_paused st H).
Qed.

(** C10.  With the binary64 clock the rows fall behind the elapsed time: the
    first row is recorded in pass 1 and the next ones 40 or 41 passes apart.
    After 5081 passes on the rail (12.7 s) the log has 125 regular rows
    while floor(T / 0.1) is 127; after 40000 passes (100 s) it has 981
    while floor(T / 0.1) is 999.  A sphere at rest on a level rail stays on
    the rail for any number of passes, so runs of that length exist. *)
Theorem binary64_cadence_drifts :
  Clock64.rows (Clock64.passes 5081 Clock64.reset) = 125%nat /\
  Clock64.intervals (Clock64.passes 5081 Clock64.reset) = 127%Z /\
  Clock64.rows (Clock64.passes 40000 Clock64.reset) = 981%nat /\
  Clock64.intervals (Clock64.passes 40000 Clock64.reset) = 999%Z.
Proof. vm_compute. repeat split. Qed.

(** * Further properties of the engine *)

(** ** What a pass does to the log and the clock *)

(** The rows a pass of a running engine appends, in order: the final row
    when the pass leaves the rail and line 608 lets it through, then the
    regular row when the test of line 650 holds. *)
Lemma tick_log (st st' : State) :
  running st = true -> tick st = Some st' ->
  let final_time := round (elapsed_time st + dt) 2 in
  let due := record_due (elapsed_time st') (last_record_time st) in
  samples st' =
    samples st
    ++ (if negb (running st') && final_row_due (samples st) final_time
        then [final_row_of st st'] else [])
    ++ (if due then [regular_row_of st'] else []) /\
  last_record_time st' =
    (if due then elapsed_time st' else last_record_time st).
Proof.
  intros Hrun Ht. unfold tick in Ht. rewrite Hrun in Ht. simpl in Ht.
  destruct (Req_dec_T (mass st) 0) as [|Hm]; [discriminate|].
  injection Ht as <-. cbv zeta.
  unfold final_row_of, regular_row_of, height_of, final_row_due.
  cbn [samples running elapsed_time last_record_time speed s rail_length
       angle_rad g mass Fg_par F_fric F_drag acceleration friction_loss
       drag_loss].
  split; [|reflexivity].
  destruct (Rleb _ (rail_length st)); cbn [negb andb].
  - destruct (record_due _ _); [reflexivity | now rewrite app_nil_r].
  - destruct (last_time (samples st)) as [x|].
    + destruct (Rltb x _); destruct (record_due _ _); cbn [app];
        rewrite ?app_nil_r, <- ?app_assoc; reflexivity.
    + destruct (record_due _ _); cbn [app];
        rewrite ?app_nil_r, <- ?app_assoc; reflexivity.
Qed.

Lemma tick_same_config (st st' : State) :
  tick st = Some st' -> same_config st st'.
Proof.
  intros Ht. unfold tick in Ht.
  destruct (negb (running st)).
  - injection Ht as <-. now repeat split.
  - destruct (Req_dec_T (mass st) 0); [discriminate|].
    injection Ht as <-. now repeat split.
Qed.

Lemma same_config_trans (a b c : State) :
  same_config a b -> same_config b c -> same_config a c.
Proof.
  unfold same_config. intros (?&?&?&?&?&?&?) (?&?&?&?&?&?&?).
  repeat split; congruence.
Qed.

Lemma ticks_same_config (n : nat) (st st' : State) :
  ticks n st = Some st' -> same_config st st'.
Proof.
  revert st. induction n as [|n IH]; simpl; intros st H.
  - injection H as <-. now repeat split.
  - destruct (tick st) as [st1|] eqn:E; [|discriminate].
    apply (same_config_trans st st1 st').
    + now apply tick_same_config.
    + now apply IH.
Qed.

(** X1.  No number of passes of the loop changes the configuration (rail
    length, gravity, mass, angle, initial velocity) or the geometry (rail
    start, angle in radians): only the sliders write them. *)
Theorem ticks_keep_configuration (n : nat) (st st' : State) :
  ticks n st = Some st' ->
  same_config st st' /\ g_eff st' = g_eff st.
Proof.
  intros H. pose proof (ticks_same_config n st st' H) as C.
  split; [exact C|]. unfold g_eff. destruct C as (_ & -> & _). reflexivity.
Qed.

(** From a state within the slider ranges every number of passes
    completes. *)
Lemma ticks_defined (n : nat) (st : State) :
  state_inv st -> exists st', ticks n st = Some st'.
Proof.
  revert st. induction n as [|n IH]; simpl; intros st I; [eauto|].
  destruct (tick_defined st) as [st1 H1]; [destruct I; lra|].
  rewrite H1. apply IH. eapply tick_inv; eauto.
Qed.

Lemma ticks_keep_configuration_witness :
  exists st', ticks 25 launched_state = Some st' /\
              same_config launched_state st'.
Proof.
  destruct (ticks_defined 25 launched_state) as [st' H].
  - apply reachable_inv, launched_state_reachable.
  - exists st'. split; [exact H|].
    exact (proj1 (ticks_keep_configuration 25 launched_state st' H)).
Defined.

(** X2.  The log is append-only: a pass leaves the rows recorded so far in
    place and adds at most two (the final row and the regular row), and
    over any number of passes the old log stays a prefix of the new one. *)
Theorem log_append_only (st : State) :
  (forall st', tick st = Some st' ->
     exists rows, samples st' = samples st ++ rows /\
                  (length rows <= 2)%nat) /\
  (forall n st', ticks n st = Some st' ->
     exists rows, samples st' = samples st ++ rows /\
                  (length rows <= 2 * n)%nat).
Proof.
  assert (forall x x', tick x = Some x' ->
            exists rows, samples x' = samples x ++ rows /\
                         (length rows <= 2)%nat) as Hone.
  { intros x x' Ht. destruct (running x) eqn:Hrun.
    - destruct (tick_log x x' Hrun Ht) as (Hs & _).
      eexists. split; [exact Hs|].
      destruct (_ && _); destruct (record_due _ _); simpl; lia.
    - rewrite (tick_paused x Hrun) in Ht. injection Ht as <-.
      exists []. rewrite app_nil_r. split; [reflexivity | simpl; lia]. }
  split; [apply Hone|].
  intros n. revert st. induction n as [|n IH]; simpl; intros st st' H.
  - injection H as <-. exists []. rewrite app_nil_r. split; auto.
  - destruct (tick st) as [st1|] eqn:E; [|discriminate].
    destruct (Hone st st1 E) as (r1 & H1 & L1).
    destruct (IH st1 st' H) as (r2 & H2 & L2).
    exists (r1 ++ r2). rewrite H2, H1, <- app_assoc. split; [reflexivity|].
    rewrite length_app. lia.
Qed.

Lemma log_append_only_witness :
  exists st' rows, ticks 25 launched_state = Some st' /\
    samples st' = samples launched_state ++ rows /\
    (length rows <= 2 * 25)%nat.
Proof.
  destruct (ticks_defined 25 launched_state) as [st' H].
  - apply reachable_inv, launched_state_reachable.
  - destruct (proj2 (log_append_only launched_state) 25%nat st' H)
      as (rows & Hr).
    exists st', rows. split; [exact H | exact Hr].
Defined.

(** The record clock never leads the elapsed time and never trails it by
    more than the recording interval. *)
Lemma record_window_inv (st : State) :
  reachable st ->
  last_record_time st <= elapsed_time st <= last_record_time st + 0.1 /\
  0 <= elapsed_time st.
Proof.
  induction 1 as [ | st v _ I Hv | st v _ I Hv | st v _ I Hv | st v _ I Hv
                 | st v _ I Hv | st _ I | st _ I | st st' Hr I Ht ];
    try (simpl; lra); try exact I.
  destruct (running st) eqn:Hrun.
  - pose proof (inv_clock st (reachable_inv st Hr)) as Hc.
    destruct (tick_running st st' Hrun Ht)
      as (_ & _ & _ & _ & _ & _ & _ & _ & _ & _ & _ & _ & _ & _ & _ & _ &
          _ & He).
    destruct (tick_log st st' Hrun Ht) as (_ & Hl).
    assert (elapsed_time st <= elapsed_time st' <= elapsed_time st + dt) as B.
    { rewrite He. destruct (running st'); unfold dt; lra. }
    rewrite Hl. unfold record_due, dt in *.
    destruct (Rgeb _ _) eqn:E;
      [apply Rgeb_true in E | apply Rgeb_false in E]; lra.
  - rewrite (tick_paused st Hrun) in Ht. now injection Ht as <-.
Qed.

(** X3.  In every reachable state the elapsed time is the integration time
    [t], is at least 0, and lies between the last record time and the last
    record time plus 0.1 s; right after a pass of a running engine it is
    less than 0.1 s past the last record time. *)
Theorem record_clock_window (st : State) :
  reachable st ->
  elapsed_time st = t st /\ 0 <= elapsed_time st /\
  last_record_time st <= elapsed_time st <= last_record_time st + 0.1 /\
  forall st', running st = true -> tick st = Some st' ->
    elapsed_time st <= elapsed_time st' <= elapsed_time st + dt /\
    last_record_time st' <= elapsed_time st' < last_record_time st' + 0.1.
Proof.
  intros Hr. pose proof (record_window_inv st Hr) as (Hw & H0).
  pose proof (inv_clock st (reachable_inv st Hr)) as Hc.
  repeat split; try lra.
  all: destruct (tick_running st st' H H1)
      as (_ & _ & _ & _ & _ & _ & _ & _ & _ & _ & _ & _ & _ & _ & _ & _ &
          _ & He);
    destruct (tick_log st st' H H1) as (_ & Hl);
    assert (elapsed_time st <= elapsed_time st' <= elapsed_time st + dt) as B
      by (rewrite He; destruct (running st'); unfold dt; lra);
    try lra.
  all: rewrite Hl; unfold record_due, dt in *;
    destruct (Rgeb _ _) eqn:E;
      [apply Rgeb_true in E | apply Rgeb_false in E]; lra.
Qed.

Lemma record_clock_window_witness :
  exists st', tick launched_state = Some st' /\
    last_record_time st' <= elapsed_time st' < last_record_time st' + 0.1.
Proof.
  destruct (tick_defined launched_state) as [st' H]; [simpl; lra|].
  exists st'. split; [exact H|].
  destruct (record_clock_window launched_state launched_state_reachable)
    as (_ & _ & _ & Hp).
  exact (proj2 (Hp st' eq_refl H)).
Defined.

Lemma last_time_app (l : list Sample) (x : Sample) :
  last_time (l ++ [x]) = Some (smp_time x).
Proof. unfold last_time. now rewrite rev_app_distr. Qed.

(** X4.  The pass that leaves the rail stops the engine without advancing
    the clock.  If the log is empty or its last time is below
    round(elapsed_time + dt, 2), it appends a final row with that time,
    height 0, potential energy 0 and total energy equal to the kinetic
    energy of the final speed; otherwise it appends no final row. *)
Theorem pass_leaving_rail (st st' : State) :
  running st = true -> tick st = Some st' -> running st' = false ->
  let final_time := round (elapsed_time st + dt) 2 in
  rail_length st < s st' /\
  t st' = t st /\ elapsed_time st' = elapsed_time st /\
  (final_row_due (samples st) final_time = true ->
   exists rest, samples st' = samples st ++ final_row_of st st' :: rest /\
     (length rest <= 1)%nat /\
     smp_time (final_row_of st st') = final_time /\
     smp_height (final_row_of st st') = 0 /\
     smp_energy_pe (final_row_of st st') = 0 /\
     smp_energy_te (final_row_of st st')
       = round (0.5 * mass st * speed st' ^ 2) 2 /\
     smp_energy_ke (final_row_of st st')
       = smp_energy_te (final_row_of st st')) /\
  (final_row_due (samples st) final_time = false ->
   samples st' = samples st \/
   samples st' = samples st ++ [regular_row_of st']).
Proof.
  intros Hrun Ht Hstop final_time.
  destruct (tick_running st st' Hrun Ht)
    as (_ & _ & _ & _ & _ & _ & _ & _ & _ & _ & _ & _ & _ & _ & _ & Hr' &
        Ht' & He').
  destruct (tick_log st st' Hrun Ht) as (Hs & _).
  rewrite Hstop in *. cbn [negb andb] in Hs.
  split; [apply Rleb_false; congruence|].
  split; [exact Ht'|]. split; [exact He'|]. fold final_time in Hs.
  split; intros Hd; rewrite Hd in Hs.
  - eexists. split; [exact Hs|].
    split; [destruct (record_due _ _); simpl; lia|]. repeat split.
  - destruct (record_due _ _); [right | left];
      rewrite Hs; cbn [app]; rewrite ?app_nil_r; reflexivity.
Qed.

(** A pass never slows the sphere by more than friction and drag can. *)
Lemma pass_speed_lower (st st' : State) :
  state_inv st -> running st = true -> tick st = Some st' ->
  speed st - (mu_sa * g st + drag_force st / mass st) * dt <= speed st'.
Proof.
  intros I Hrun Ht.
  destruct (tick_running st st' Hrun Ht)
    as (_ & _ & _ & _ & _ & _ & _ & _ & _ & _ & _ & _ & _ & Hsp & _).
  pose proof (gravity_parallel_nonneg st I) as HG.
  pose proof (friction_force_le st I) as HF.
  pose proof (drag_force_nonneg st) as HD.
  assert (0 < mass st) as Hm by (destruct I; lra).
  assert (0 < / mass st) as Hi by now apply Rinv_0_lt_compat.
  assert (- (mu_sa * g st + drag_force st / mass st)
          <= (gravity_parallel st - friction_force st - drag_force st)
             / mass st) as Ha.
  { unfold Rdiv.
    replace (- (mu_sa * g st + drag_force st * / mass st))
      with ((- (mu_sa * (mass st * g st)) - drag_force st) * / mass st)
      by (field; lra).
    apply Rmult_le_compat_r; lra. }
  rewrite Hsp.
  match goal with |- context [Rltb ?x 0] =>
    destruct (Rltb x 0) eqn:E;
      [apply Rltb_true in E | apply Rltb_false in E] end;
    unfold dt in *; nra.
Qed.

(** The first pass of [fast_short_state] leaves the rail. *)
Lemma fast_short_pass_stops (st' : State) :
  tick fast_short_state = Some st' -> running st' = false.
Proof.
  intros Ht.
  pose proof (reachable_inv _ fast_short_state_reachable) as I.
  pose proof (pass_speed_lower _ _ I eq_refl Ht) as Hlow.
  destruct (tick_running fast_short_state st' eq_refl Ht)
    as (_ & _ & _ & _ & _ & _ & _ & _ & _ & _ & _ & _ & _ & _ & Hs & Hr & _).
  assert (drag_force fast_short_state <= 11515) as HD.
  { unfold drag_force, rho_air, Cd_sphere. simpl speed.
    pose proof area_cross_bounds. nra. }
  simpl speed in Hlow. simpl g in Hlow. simpl mass in Hlow.
  unfold mu_sa, dt, Rdiv in Hlow. rewrite Rinv_1 in Hlow.
  rewrite Hr, Hs. apply Rleb_false. simpl s. simpl rail_length.
  unfold dt. nra.
Qed.

Lemma pass_leaving_rail_witness :
  exists st', tick fast_short_state = Some st' /\
    rail_length fast_short_state < s st' /\
    elapsed_time st' = elapsed_time fast_short_state.
Proof.
  destruct (tick_defined fast_short_state) as [st' H]; [simpl; lra|].
  exists st'. split; [exact H|].
  destruct (pass_leaving_rail fast_short_state st' eq_refl H
              (fast_short_pass_stops st' H)) as (H1 & _ & H3 & _).
  split; [exact H1 | exact H3].
Defined.

(** X5.  The first pass after Reset always records: if it stays on the rail
    the log is the one regular row (at elapsed time dt) and the record
    clock is set to dt; if it already leaves the rail the log is the final
    row followed by a regular row, both at elapsed time 0. *)
Theorem first_pass_after_reset (st st' : State) :
  freshly_reset st -> tick st = Some st' ->
  (running st' = true ->
   samples st' = [regular_row_of st'] /\
   elapsed_time st' = dt /\ last_record_time st' = dt) /\
  (running st' = false ->
   samples st' = [final_row_of st st'; regular_row_of st'] /\
   elapsed_time st' = 0 /\ last_record_time st' = 0).
Proof.
  intros (Ht0 & He0 & Hl0 & Hs0 & Hrun) Ht.
  destruct (tick_running st st' Hrun Ht)
    as (_ & _ & _ & _ & _ & _ & _ & _ & _ & _ & _ & _ & _ & _ & _ & _ &
        _ & He').
  destruct (tick_log st st' Hrun Ht) as (Hs & Hl).
  rewrite Hs0, Hl0 in *. cbn [app] in Hs. unfold final_row_due in Hs.
  cbn [last_time rev] in Hs.
  split; intros Hr; rewrite Hr in *; cbn [negb andb] in Hs.
  - assert (elapsed_time st' = dt) as E by (rewrite He', Ht0; ring).
    assert (record_due (elapsed_time st') (- 0.1) = true) as D
      by (apply Rgeb_true; rewrite E; unfold dt; lra).
    rewrite D in *. repeat split; auto. congruence.
  - assert (elapsed_time st' = 0) as E by congruence.
    assert (record_due (elapsed_time st') (- 0.1) = true) as D
      by (apply Rgeb_true; rewrite E; lra).
    rewrite D in *. repeat split; auto. congruence.
Qed.

Lemma first_pass_after_reset_witness :
  exists st', tick fast_short_state = Some st' /\
    samples st' = [final_row_of fast_short_state st'; regular_row_of st'].
Proof.
  destruct (tick_defined fast_short_state) as [st' H]; [simpl; lra|].
  exists st'. split; [exact H|].
  refine (proj1 (proj2 (first_pass_after_reset fast_short_state st' _ H)
                   (fast_short_pass_stops st' H))).
  repeat split; simpl; lra.
Defined.

(** A pass of a running engine stops it exactly when the new displacement
    is above the rail length, and then leaves the clock alone. *)
Lemma pass_stop_rule (st st' : State) :
  running st = true -> tick st = Some st' ->
  rail_length st' = rail_length st /\
  s st' = s st + speed st' * dt /\
  (running st' = false -> rail_length st < s st') /\
  (rail_length st < s st' -> running st' = false) /\
  (running st' = false -> elapsed_time st' = elapsed_time st).
Proof.
  intros Hrun Ht.
  destruct (tick_running st st' Hrun Ht)
    as (_ & Hl & _ & _ & _ & _ & _ & _ & _ & _ & _ & _ & _ & _ & Hs & Hr' &
        _ & He').
  split; [exact Hl|]. split; [exact Hs|]. split; [|split].
  - intros E. apply Rleb_false. congruence.
  - intros E. rewrite Hr'. now apply Rleb_false.
  - intros E. now rewrite E in He'.
Qed.

(** X6.  Past the end of the rail the engine cannot be restarted without a
    reset: if Play is pressed while the displacement is above the rail
    length, the next pass moves the displacement further, stops the engine
    again and leaves the clock where it was. *)
Theorem past_end_stops_again (st st' : State) :
  reachable st -> running st = true -> rail_length st < s st ->
  tick st = Some st' ->
  running st' = false /\ s st <= s st' /\ rail_length st' < s st' /\
  elapsed_time st' = elapsed_time st.
Proof.
  intros Hr Hrun Hover Ht.
  pose proof (reachable_inv st Hr) as I.
  pose proof (inv_speed st' (tick_inv st st' I Ht)) as Hv.
  destruct (pass_stop_rule st st' Hrun Ht) as (Hl & Hs & _ & Hstop & He).
  assert (s st <= s st') as Hmono by (rewrite Hs; unfold dt; nra).
  assert (running st' = false) as E by (apply Hstop; lra).
  repeat split; auto. rewrite Hl. lra.
Qed.

(** The engine of [fast_short_state] after its first pass, with Play
    pressed again. *)
Lemma fast_short_replay :
  exists st1, tick fast_short_state = Some st1 /\
    reachable (toggle_running st1) /\
    running (toggle_running st1) = true /\
    rail_length (toggle_running st1) < s (toggle_running st1) /\
    elapsed_time (toggle_running st1)
      - last_record_time (toggle_running st1) < 0.1.
Proof.
  destruct (tick_defined fast_short_state) as [st1 H]; [simpl; lra|].
  exists st1. split; [exact H|].
  pose proof (fast_short_pass_stops st1 H) as Hstop.
  destruct (tick_running fast_short_state st1 eq_refl H)
    as (_ & Hl & _ & _ & _ & _ & _ & _ & _ & _ & _ & _ & _ & _ & _ & Hr &
        _ & _).
  destruct (tick_log fast_short_state st1 eq_refl H) as (_ & Hlr).
  pose proof (reach_tick _ _ fast_short_state_reachable H) as R1.
  pose proof (record_window_inv st1 R1) as (Hw & _).
  split; [now apply reach_toggle|]. simpl. rewrite Hstop.
  split; [reflexivity|]. split.
  - rewrite Hl. rewrite Hstop in Hr. symmetry in Hr.
    now apply Rleb_false in Hr.
  - assert (record_due (elapsed_time st1)
              (last_record_time fast_short_state) = true) as D.
    { destruct (tick_running fast_short_state st1 eq_refl H)
        as (_ & _ & _ & _ & _ & _ & _ & _ & _ & _ & _ & _ & _ & _ & _ & _ &
            _ & He).
      rewrite Hstop in He. apply Rgeb_true. rewrite He. simpl. lra. }
    rewrite D in Hlr. rewrite Hlr. lra.
Qed.

Lemma past_end_stops_again_witness :
  exists st1 st2, tick fast_short_state = Some st1 /\
    tick (toggle_running st1) = Some st2 /\
    running st2 = false /\ s (toggle_running st1) <= s st2.
Proof.
  destruct fast_short_replay as (st1 & H1 & R & Hrun & Hover & _).
  destruct (tick_defined (toggle_running st1)) as [st2 H2].
  { destruct (reachable_inv _ R); lra. }
  exists st1, st2. split; [exact H1|]. split; [exact H2|].
  destruct (past_end_stops_again _ st2 R Hrun Hover H2) as (A & B & _).
  split; [exact A | exact B].
Defined.

(** X7.  No duplicate final row: when the pass that left the rail did not
    fall on a recording instant, pressing Play and running one more pass
    appends nothing to the log and stops the engine again. *)
Theorem replay_appends_nothing (st st1 st2 : State) :
  reachable st -> running st = true ->
  elapsed_time st - last_record_time st < 0.1 ->
  tick st = Some st1 -> running st1 = false ->
  tick (toggle_running st1) = Some st2 ->
  samples st2 = samples st1 /\ running st2 = false.
Proof.
  intros Hr Hrun Hnd H1 Hstop H2.
  destruct (pass_stop_rule st st1 Hrun H1) as (Hlen & _ & Hov & _ & He).
  pose proof (Hov Hstop) as Hover. pose proof (He Hstop) as He1.
  destruct (tick_log st st1 Hrun H1) as (Hs1 & Hl1).
  assert (record_due (elapsed_time st1) (last_record_time st) = false) as D1
    by (apply Rgeb_false; rewrite He1; exact Hnd).
  rewrite D1, Hstop in *. cbn [negb andb] in Hs1. rewrite app_nil_r in Hs1.
  pose proof (reach_tick st st1 Hr H1) as R1.
  pose proof (reach_toggle st1 R1) as R1'.
  assert (running (toggle_running st1) = true) as Hrun1
    by (simpl; now rewrite Hstop).
  destruct (pass_stop_rule (toggle_running st1) st2 Hrun1 H2)
    as (_ & Hs2' & _ & Hstop2' & He2').
  pose proof (inv_speed st2
                (tick_inv _ st2 (reachable_inv _ R1') H2)) as Hv2.
  assert (running st2 = false) as Hstop2.
  { apply Hstop2'. simpl rail_length. simpl s in Hs2'.
    rewrite Hs2', Hlen. unfold dt. nra. }
  pose proof (He2' Hstop2) as He2.
  destruct (tick_log (toggle_running st1) st2 Hrun1 H2) as (Hs2 & _).
  split; [|exact Hstop2].
  assert (record_due (elapsed_time st2)
            (last_record_time (toggle_running st1)) = false) as D2.
  { apply Rgeb_false. rewrite He2. simpl. rewrite He1, Hl1. exact Hnd. }
  rewrite D2, Hstop2 in Hs2. cbn [negb andb] in Hs2.
  rewrite app_nil_r in Hs2.
  assert (final_row_due (samples st1)
            (round (elapsed_time (toggle_running st1) + dt) 2) = false) as F.
  { simpl elapsed_time. rewrite He1.
    destruct (final_row_due (samples st) (round (elapsed_time st + dt) 2))
      eqn:E; rewrite Hs1.
    - unfold final_row_due. rewrite last_time_app. apply Rltb_false.
      unfold final_row_of. simpl. lra.
    - rewrite app_nil_r. exact E. }
  simpl samples in Hs2. rewrite F in Hs2. now rewrite app_nil_r in Hs2.
Qed.

Lemma replay_appends_nothing_witness :
  exists st1 st2 st3,
    tick fast_short_state = Some st1 /\
    tick (toggle_running st1) = Some st2 /\
    tick (toggle_running st2) = Some st3 /\
    samples st3 = samples st2 /\ running st3 = false.
Proof.
  destruct fast_short_replay as (st1 & H1 & R & Hrun & Hover & Hnd).
  pose proof (reachable_inv _ R) as I.
  destruct (tick_defined (toggle_running st1)) as [st2 H2];
    [destruct I; lra|].
  pose proof (tick_inv _ st2 I H2) as I2.
  destruct (pass_stop_rule _ st2 Hrun H2) as (_ & Hs & _ & Hstop & _).
  assert (running st2 = false) as E.
  { apply Hstop. rewrite Hs. pose proof (inv_speed st2 I2).
    unfold dt. nra. }
  destruct (tick_defined (toggle_running st2)) as [st3 H3];
    [simpl; destruct I2; lra|].
  exists st1, st2, st3. repeat split; auto;
    apply (replay_appends_nothing (toggle_running st1) st2 st3
             R Hrun Hnd H2 E H3).
Defined.

(** ** Bounds on the motion *)

Lemma Rdiv_le_bound (a b c : R) : 0 < b -> a <= c * b -> a / b <= c.
Proof.
  intros Hb H. replace c with (c * b / b) by (field; lra).
  unfold Rdiv. apply Rmult_le_compat_r; [|exact H].
  left. now apply Rinv_0_lt_compat.
Qed.

(** X8.  A pass never accelerates the sphere by more than g: the
    acceleration is at most the gravity setting, so the speed grows by at
    most g * dt and the displacement by at most (speed + g * dt) * dt. *)
Theorem acceleration_at_most_g (st st' : State) :
  reachable st -> running st = true -> tick st = Some st' ->
  acceleration st' <= g st /\
  speed st' <= speed st + g st * dt /\
  s st' - s st <= (speed st + g st * dt) * dt.
Proof.
  intros Hr Hrun Ht. pose proof (reachable_inv st Hr) as I.
  destruct (tick_running st st' Hrun Ht)
    as (_ & _ & _ & _ & _ & _ & _ & _ & _ & _ & Ha & _ & _ & Hsp & Hs & _).
  pose proof (friction_force_nonneg st I) as HF.
  pose proof (drag_force_nonneg st) as HD.
  assert (0 < mass st) as Hm by (destruct I; lra).
  assert (1 <= g st) as Hg by (destruct I; lra).
  assert (gravity_parallel st <= mass st * g st) as HG.
  { unfold gravity_parallel, g_eff.
    pose proof (SIN_bound (angle_rad st)) as [_ Hsin].
    pose proof (sin_radians_nonneg _ (inv_angle st I)) as Hs0.
    rewrite <- (inv_rad st I) in Hs0.
    pose proof buoyancy_factor_bounds as Hb.
    set (b := 1 - rho_air / rho_sphere) in *.
    set (si := sin (angle_rad st)) in *.
    assert (0 <= mass st * g st) by nra.
    assert (b * si <= 1) by nra.
    replace (mass st * (g st * b) * si) with (mass st * g st * (b * si))
      by ring. nra. }
  assert (acceleration st' <= g st) as HA.
  { rewrite Ha. apply Rdiv_le_bound; [lra|]. lra. }
  assert (0 <= speed st) as Hv by (destruct I; assumption).
  assert (speed st' <= speed st + g st * dt) as HS.
  { rewrite Hsp. fold (acceleration st') in *. rewrite <- Ha.
    match goal with |- context [Rltb ?x 0] =>
      destruct (Rltb x 0) eqn:E;
        [apply Rltb_true in E | apply Rltb_false in E] end;
      unfold dt in *; nra. }
  repeat split; auto. rewrite Hs. unfold dt in *. nra.
Qed.

Lemma acceleration_at_most_g_witness :
  exists st', tick launched_state = Some st' /\
    acceleration st' <= g launched_state.
Proof.
  destruct (tick_defined launched_state) as [st' H]; [simpl; lra|].
  exists st'. split; [exact H|].
  exact (proj1 (acceleration_at_most_g launched_state st'
                  launched_state_reachable eq_refl H)).
Defined.

(** One pass on a level rail: gravity does not pull along the rail, and
    friction alone takes at least mu * g_eff * dt off the speed. *)
Lemma level_pass_brakes (st st' : State) :
  state_inv st -> angle st = 0 -> running st = true ->
  tick st = Some st' ->
  speed st' <= Rmax 0 (speed st - mu_sa * g_eff st * dt).
Proof.
  intros I Ha Hrun Ht.
  destruct (tick_running st st' Hrun Ht)
    as (_ & _ & _ & _ & _ & _ & _ & _ & _ & _ & _ & _ & _ & Hsp & _).
  assert (angle_rad st = 0) as Hrad
    by (rewrite (inv_rad st I), Ha; unfold radians; lra).
  assert (gravity_parallel st = 0) as HG
    by (unfold gravity_parallel; rewrite Hrad, sin_0; ring).
  assert (friction_force st = mu_sa * (mass st * g_eff st)) as HF.
  { unfold friction_force, normal_force.
    assert (Rltb (angle st) 90 = true) as E by (apply Rltb_true; lra).
    rewrite E, Hrad, cos_0. ring. }
  pose proof (drag_force_nonneg st) as HD.
  assert (0 < mass st) as Hm by (destruct I; lra).
  assert ((gravity_parallel st - friction_force st - drag_force st)
          / mass st <= - (mu_sa * g_eff st)) as Hacc.
  { rewrite HG, HF. apply Rdiv_le_bound; [lra|]. nra. }
  rewrite Hsp.
  match goal with |- context [Rltb ?x 0] =>
    destruct (Rltb x 0) eqn:E;
      [apply Rltb_true in E | apply Rltb_false in E] end.
  - apply Rmax_l.
  - eapply Rle_trans; [|apply Rmax_r]. unfold dt in *. nra.
Qed.

Lemma level_run_brakes (n : nat) (st st' : State) :
  state_inv st -> angle st = 0 ->
  ticks n st = Some st' -> running st' = true ->
  speed st' <= Rmax 0 (speed st - INR n * (mu_sa * g_eff st * dt)).
Proof.
  revert st. induction n as [|n IH]; intros st I Ha Hn Hrun'.
  - simpl in Hn. injection Hn as <-. simpl INR.
    eapply Rle_trans; [|apply Rmax_r]. lra.
  - change (ticks (S n) st)
      with (match tick st with Some x => ticks n x | None => None end) in Hn.
    destruct (tick st) as [st1|] eqn:E; [|discriminate].
    destruct (running st) eqn:Hrun.
    + pose proof (level_pass_brakes st st1 I Ha Hrun E) as H1.
      destruct (tick_same_config st st1 E) as (_ & Hg & _ & Ha1 & _).
      assert (g_eff st1 = g_eff st) as Hge by (unfold g_eff; now rewrite Hg).
      pose proof (IH st1 (tick_inv st st1 I E) (eq_trans Ha1 Ha) Hn Hrun')
        as H2.
      rewrite Hge in H2. rewrite S_INR.
      assert (0 < mu_sa * g_eff st * dt) as Hk.
      { assert (0 < g_eff st) by (apply g_eff_pos; destruct I; lra).
        unfold mu_sa, dt. nra. }
      pose proof (pos_INR n) as Hn0.
      set (k := mu_sa * g_eff st * dt) in *.
      eapply Rle_trans; [exact H2|].
      apply Rmax_lub; [apply Rmax_l|].
      destruct (Rle_dec (speed st - k) 0) as [Hle|Hgt].
      * rewrite Rmax_left in H1 by exact Hle.
        eapply Rle_trans; [|apply Rmax_l]. nra.
      * rewrite Rmax_right in H1 by lra.
        eapply Rle_trans; [|apply Rmax_r]. nra.
    + rewrite (tick_paused st Hrun) in E. injection E as <-.
      rewrite (ticks_paused n st Hrun) in Hn. injection Hn as <-.
      congruence.
Qed.

(** X9.  On a level rail the sphere comes to rest: there is a number of
    passes after which, as long as the engine is still running (the end of
    the rail was not reached first), the speed is exactly 0.  Each pass
    takes at least mu * g_eff * dt off the speed until it is clamped. *)
Theorem level_rail_comes_to_rest (st : State) :
  reachable st -> angle st = 0 ->
  (forall st', running st = true -> tick st = Some st' ->
     speed st' <= Rmax 0 (speed st - mu_sa * g_eff st * dt)) /\
  exists N : nat, forall n st',
    (N <= n)%nat -> ticks n st = Some st' -> running st' = true ->
    speed st' = 0.
Proof.
  intros Hr Ha. pose proof (reachable_inv st Hr) as I. split.
  - intros st' Hrun Ht. now apply level_pass_brakes.
  - assert (0 < mu_sa * g_eff st * dt) as Hk.
    { assert (0 < g_eff st) by (apply g_eff_pos; destruct I; lra).
      unfold mu_sa, dt. nra. }
    set (k := mu_sa * g_eff st * dt) in *.
    destruct (archimed (speed st / k)) as [Hup _].
    exists (Z.to_nat (up (speed st / k))).
    intros n st' Hn Hticks Hrun'.
    pose proof (level_run_brakes n st st' I Ha Hticks Hrun') as Hb.
    fold k in Hb.
    pose proof (inv_speed st' (ticks_inv n st st' I Hticks)) as Hv'.
    pose proof (inv_speed st I) as Hv.
    assert (speed st / k < INR n) as Hlt.
    { eapply Rlt_le_trans; [exact Hup|].
      assert (0 <= speed st / k).
      { unfold Rdiv. apply Rmult_le_pos; [lra|].
        left. now apply Rinv_0_lt_compat. }
      assert (0 <= up (speed st / k))%Z as Hz.
      { apply le_IZR. lra. }
      rewrite <- (Z2Nat.id _ Hz), <- INR_IZR_INZ. now apply le_INR. }
    assert (speed st < INR n * k) as Hs.
    { apply (Rmult_lt_compat_r k) in Hlt; [|lra].
      unfold Rdiv in Hlt. rewrite Rmult_assoc, Rinv_l in Hlt by lra. lra. }
    rewrite Rmax_left in Hb by lra. lra.
Qed.

Lemma rolling_level_state_reachable : reachable rolling_level_state.
Proof.
  apply reach_toggle, reach_reset, reach_initial_velocity;
    [apply reach_angle; [apply reach_init | lra] | lra].
Qed.

Lemma level_rail_comes_to_rest_witness :
  exists N : nat, forall n st',
    (N <= n)%nat -> ticks n rolling_level_state = Some st' ->
    running st' = true -> speed st' = 0.
Proof.
  refine (proj2 (level_rail_comes_to_rest rolling_level_state
                   rolling_level_state_reachable _)).
  reflexivity.
Defined.

(** X10.  On a vertical rail (angle 90) a pass is a free fall with drag:
    the parallel gravity is the full weight mass * g_eff, there is no
    friction, the acceleration is g_eff - F_drag / mass, and the recorded
    horizontal speed component is 0. *)
Theorem vertical_rail_free_fall (st st' : State) :
  reachable st -> angle st = 90 -> running st = true ->
  tick st = Some st' ->
  Fg_par st' = mass st * g_eff st /\ F_fric st' = 0 /\
  acceleration st' = g_eff st - F_drag st' / mass st /\
  speed st' * cos (angle_rad st') = 0.
Proof.
  intros Hr Ha Hrun Ht. pose proof (reachable_inv st Hr) as I.
  destruct (tick_running st st' Hrun Ht)
    as (_ & _ & _ & _ & _ & _ & Hrad' & HFg & HFf & HFd & Hacc & _).
  assert (angle_rad st = PI / 2) as Hrad
    by (rewrite (inv_rad st I), Ha; unfold radians; lra).
  assert (gravity_parallel st = mass st * g_eff st) as HG
    by (unfold gravity_parallel; rewrite Hrad, sin_PI2; ring).
  assert (friction_force st = 0) as HF.
  { unfold friction_force.
    assert (Rltb (angle st) 90 = false) as E by (apply Rltb_false; lra).
    now rewrite E. }
  assert (mass st <> 0) as Hm by (destruct I; lra).
  repeat split.
  - congruence.
  - congruence.
  - rewrite Hacc, HFd, HG, HF. field. exact Hm.
  - rewrite Hrad', Hrad, cos_PI2. ring.
Qed.

Lemma vertical_rail_free_fall_witness :
  exists st', tick vertical_state = Some st' /\
    Fg_par st' = mass vertical_state * g_eff vertical_state /\
    F_fric st' = 0.
Proof.
  destruct (tick_defined vertical_state) as [st' H]; [simpl; lra|].
  exists st'. split; [exact H|].
  assert (reachable vertical_state) as R
    by (apply reach_toggle, reach_angle; [apply reach_init | lra]).
  destruct (vertical_rail_free_fall vertical_state st' R eq_refl eq_refl H)
    as (A & B & _).
  split; [exact A | exact B].
Defined.

(** X11.  Neither cumulative loss is ever negative. *)
Theorem losses_never_negative (st : State) :
  reachable st -> 0 <= friction_loss st /\ 0 <= drag_loss st.
Proof.
  intros Hr. destruct (reachable_inv st Hr). split; assumption.
Qed.

Lemma losses_never_negative_witness :
  0 <= friction_loss launched_state /\ 0 <= drag_loss launched_state.
Proof. exact (losses_never_negative launched_state launched_state_reachable). Defined.

(** ** Geometry *)

Lemma geometry_inv (st : State) :
  reachable st ->
  (rail_start st, angle_rad st) = calculate_rail_geometry st (angle st).
Proof.
  induction 1 as [ | st v _ I Hv | st v _ I Hv | st v _ I Hv | st v _ I Hv
                 | st v _ I Hv | st _ I | st _ I | st st' _ I Ht ];
    try reflexivity; try exact I.
  destruct (tick_same_config st st' Ht) as (Hl & _ & _ & Ha & _ & Hs & Hr).
  unfold calculate_rail_geometry in *. rewrite Hl, Ha, Hs, Hr. exact I.
Qed.

Lemma geometry_consistent_aux (st : State) :
  reachable st ->
  rail_start st =
    (5 - rail_length st * cos (angle_rad st),
     rail_length st * sin (angle_rad st), 0).
Proof.
  intros Hr. pose proof (geometry_inv st Hr) as G.
  unfold calculate_rail_geometry in G. injection G as Gs Ga.
  rewrite <- Ga in Gs. exact Gs.
Qed.

(** X12.  In every reachable state the stored geometry is the one
    calculate_rail_geometry gives for the current angle and rail length:
    the rail starts at (5 - L cos a, L sin a, 0), with a the angle in
    radians, at a height between 0 and L and not to the right of the fixed
    end. *)
Theorem geometry_consistent (st : State) :
  reachable st ->
  (rail_start st, angle_rad st) = calculate_rail_geometry st (angle st) /\
  rail_start st =
    (5 - rail_length st * cos (angle_rad st),
     rail_length st * sin (angle_rad st), 0) /\
  0 <= snd (fst (rail_start st)) <= rail_length st /\
  5 - rail_length st <= fst (fst (rail_start st)) <= 5.
Proof.
  intros Hr. pose proof (geometry_inv st Hr) as G.
  pose proof (reachable_inv st Hr) as I.
  split; [exact G|].
  unfold calculate_rail_geometry in G. injection G as Gs Ga.
  rewrite <- Ga in Gs. simpl in Gs.
  split; [exact Gs|]. rewrite Gs. simpl.
  pose proof (sin_radians_nonneg _ (inv_angle st I)) as Hs0.
  pose proof (cos_radians_nonneg _ (inv_angle st I)) as Hc0.
  rewrite <- (inv_rad st I) in Hs0, Hc0.
  pose proof (SIN_bound (angle_rad st)) as [_ Hs1].
  pose proof (COS_bound (angle_rad st)) as [_ Hc1].
  assert (1 <= rail_length st) by (destruct I; lra).
  repeat split; nra.
Qed.

Lemma geometry_consistent_witness :
  rail_start launched_state =
    (5 - rail_length launched_state * cos (angle_rad launched_state),
     rail_length launched_state * sin (angle_rad launched_state), 0).
Proof.
  exact (proj1 (proj2 (geometry_consistent launched_state
                         launched_state_reachable))).
Defined.

Lemma rail_axis_components (st : State) :
  reachable st ->
  rail_axis st =
    (rail_length st * cos (angle_rad st),
     - (rail_length st * sin (angle_rad st)), 0) /\
  mag (rail_axis st) = rail_length st.
Proof.
  intros Hr. pose proof (geometry_inv st Hr) as G.
  pose proof (reachable_inv st Hr) as I.
  unfold calculate_rail_geometry in G. injection G as Gs Ga.
  rewrite <- Ga in Gs. simpl in Gs.
  assert (rail_axis st =
          (rail_length st * cos (angle_rad st),
           - (rail_length st * sin (angle_rad st)), 0)) as A.
  { unfold rail_axis, rail_end, fixed_point. rewrite Gs. simpl.
    f_equal; [f_equal|]; ring. }
  split; [exact A|]. rewrite A. unfold mag.
  set (L := rail_length st). set (a := angle_rad st).
  replace (L * cos a * (L * cos a) + - (L * sin a) * - (L * sin a) + 0 * 0)
    with (L * L * (Rsqr (sin a) + Rsqr (cos a))) by (unfold Rsqr; ring).
  rewrite sin2_cos2, Rmult_1_r. apply sqrt_square.
  subst L. destruct I; lra.
Qed.

(** X13.  The rail is drawn with its configured length: in every reachable
    state the axis handed to the rail box, from the rail start to the fixed
    end, has magnitude rail_length. *)
Theorem rail_drawn_with_its_length (st : State) :
  reachable st ->
  mag (rail_axis st) = rail_length st /\
  vadd (rail_start st) (rail_axis st) = rail_end.
Proof.
  intros Hr. destruct (rail_axis_components st Hr) as (A & M).
  split; [exact M|].
  unfold rail_axis, rail_end, fixed_point.
  destruct (rail_start st) as [[x y] z]. simpl.
  f_equal; [f_equal|]; ring.
Qed.

Lemma rail_drawn_with_its_length_witness :
  mag (rail_axis launched_state) = rail_length launched_state.
Proof.
  exact (proj1 (rail_drawn_with_its_length launched_state
                  launched_state_reachable)).
Defined.

(** X14.  Where the loop draws the ball on the rail: at displacement s the
    ball is at (5 - (L - s) cos a, (L - s) sin a + show_radius, 0).  So for
    s <= L its height above the ball radius is the height the loop
    displays and records, at s = 0 it sits on the rail start, and at s = L
    it is exactly where the other branch puts it, on the fixed end. *)
Theorem ball_position_on_rail (st : State) :
  reachable st ->
  ball_on_rail st =
    (5 - (rail_length st - s st) * cos (angle_rad st),
     (rail_length st - s st) * sin (angle_rad st) + show_radius, 0) /\
  (s st <= rail_length st ->
   snd (fst (ball_on_rail st)) = height_of st + show_radius) /\
  (s st = 0 ->
   ball_on_rail st = vadd (rail_start st) (0, show_radius, 0)) /\
  (s st = rail_length st -> ball_on_rail st = ball_at_end).
Proof.
  intros Hr. destruct (rail_axis_components st Hr) as (A & M).
  pose proof (reachable_inv st Hr) as I.
  pose proof (geometry_consistent_aux st Hr) as Gs.
  assert (rail_length st <> 0) as HL by (destruct I; lra).
  assert (ball_on_rail st =
          (5 - (rail_length st - s st) * cos (angle_rad st),
           (rail_length st - s st) * sin (angle_rad st) + show_radius, 0))
    as B.
  { unfold ball_on_rail, norm. rewrite M.
    destruct (Req_dec_T (rail_length st) 0) as [E|_]; [contradiction|].
    rewrite A, Gs. simpl. f_equal; [f_equal|]; field; exact HL. }
  split; [exact B|]. rewrite B. simpl. split; [|split].
  - intros Hle. unfold height_of. rewrite Rmax_left by lra. reflexivity.
  - intros E. rewrite Gs, E. simpl. f_equal; [f_equal|]; ring.
  - intros E. rewrite E. unfold ball_at_end, rail_end, fixed_point. simpl.
    f_equal; [f_equal|]; ring.
Qed.

Lemma ball_position_on_rail_witness :
  ball_on_rail launched_state =
    vadd (rail_start launched_state) (0, show_radius, 0).
Proof.
  refine (proj1 (proj2 (proj2 (ball_position_on_rail launched_state
                                 launched_state_reachable))) _).
  reflexivity.
Defined.

(** ** Reset after a run *)

(** The level engine at rest keeps running for any number of passes. *)
Lemma level_rest_runs (n : nat) :
  exists st', ticks n level_rest_state = Some st' /\ running st' = true.
Proof.
  assert (forall m st, state_inv st -> angle st = 0 -> speed st = 0 ->
            s st = 0 -> running st = true ->
            exists st', ticks m st = Some st' /\ running st' = true) as H.
  { induction m as [|m IH]; intros st I Ha Hv Hs Hrun.
    - exists st. now split.
    - destruct (level_rest_step st I Ha Hv Hs Hrun)
        as (st1 & Ht & I1 & Ha1 & Hv1 & Hs1 & Hrun1 & _).
      destruct (IH st1 I1 Ha1 Hv1 Hs1 Hrun1) as (st' & Hm & Hr').
      exists st'. simpl. rewrite Ht. now split. }
  apply H; try reflexivity.
  apply reachable_inv, level_rest_state_reachable.
Qed.

(** X15.  Reset forgets the run: after any number of passes, Reset gives
    the same globals as Reset before them, provided the running flag is
    the same (Reset does not write it). *)
Theorem reset_forgets_run (n : nat) (st st' : State) :
  ticks n st = Some st' -> running st' = running st ->
  reset_simulation st' = reset_simulation st.
Proof.
  intros H Hrun.
  destruct (ticks_same_config n st st' H)
    as (Hl & Hg & Hm & Ha & Hv & Hs & Hr).
  unfold reset_simulation. now rewrite Hl, Hg, Hm, Ha, Hv, Hs, Hr, Hrun.
Qed.

Lemma reset_forgets_run_witness :
  exists st', ticks 200 level_rest_state = Some st' /\
    reset_simulation st' = reset_simulation level_rest_state.
Proof.
  destruct (level_rest_runs 200) as (st' & H & Hr).
  exists st'. split; [exact H|].
  exact (reset_forgets_run 200 level_rest_state st' H Hr).
Defined.

(** ** Sliders *)

(** X17.  The order in which two different sliders are moved does not
    matter: any two of the five setters commute, the geometry being
    recomputed from the final angle and length either way. *)
Theorem setters_commute (st : State) (a l gv m v : R) :
  update_angle a (update_length l st) = update_length l (update_angle a st) /\
  update_angle a (update_gravity gv st)
    = update_gravity gv (update_angle a st) /\
  update_angle a (update_mass m st) = update_mass m (update_angle a st) /\
  update_angle a (update_initial_velocity v st)
    = update_initial_velocity v (update_angle a st) /\
  update_length l (update_gravity gv st)
    = update_gravity gv (update_length l st) /\
  update_length l (update_mass m st) = update_mass m (update_length l st) /\
  update_length l (update_initial_velocity v st)
    = update_initial_velocity v (update_length l st) /\
  update_gravity gv (update_mass m st)
    = update_mass m (update_gravity gv st) /\
  update_gravity gv (update_initial_velocity v st)
    = update_initial_velocity v (update_gravity gv st) /\
  update_mass m (update_initial_velocity v st)
    = update_initial_velocity v (update_mass m st).
Proof. repeat split. Qed.

(** ** Terminal speed *)

(** X18.  The sign of the net force decides the trend of the speed: while
    drag is at most the pull of gravity minus friction the speed does not
    fall, while it is at least that the speed does not rise, and at the
    balance (the terminal speed) a pass leaves the speed unchanged. *)
Theorem speed_follows_net_force (st st' : State) :
  reachable st -> running st = true -> tick st = Some st' ->
  (drag_force st <= gravity_parallel st - friction_force st ->
   speed st <= speed st') /\
  (gravity_parallel st - friction_force st <= drag_force st ->
   speed st' <= speed st) /\
  (drag_force st = gravity_parallel st - friction_force st ->
   speed st' = speed st /\ acceleration st' = 0).
Proof.
  intros Hr Hrun Ht. pose proof (reachable_inv st Hr) as I.
  destruct (tick_running st st' Hrun Ht)
    as (_ & _ & _ & _ & _ & _ & _ & _ & _ & _ & Ha & _ & _ & Hsp & _).
  assert (0 < mass st) as Hm by (destruct I; lra).
  assert (0 < / mass st) as Hi by now apply Rinv_0_lt_compat.
  pose proof (inv_speed st I) as Hv.
  set (F := gravity_parallel st - friction_force st - drag_force st) in *.
  assert (acceleration st' = F * / mass st) as Ha' by exact Ha.
  assert (speed st' =
          if Rltb (speed st + acceleration st' * dt) 0 then 0
          else speed st + acceleration st' * dt) as Hsp'
    by (rewrite Ha; exact Hsp).
  clear Hsp Ha.
  assert (forall x, 0 <= x -> 0 <= x * / mass st) as Hpos
    by (intros; apply Rmult_le_pos; lra).
  assert (forall x, x <= 0 -> x * / mass st <= 0) as Hneg.
  { intros x Hx. pose proof (Hpos (- x)). lra. }
  destruct (Rltb (speed st + acceleration st' * dt) 0) eqn:E;
    [apply Rltb_true in E | apply Rltb_false in E];
    rewrite Ha' in *; unfold dt in *.
  - split; [|split]; intros HF.
    + assert (0 <= F) as F0 by (unfold F; lra).
      pose proof (Hpos F F0). nra.
    + lra.
    + assert (F = 0) as F0 by (unfold F; lra). rewrite F0 in E. lra.
  - split; [|split]; intros HF.
    + assert (0 <= F) as F0 by (unfold F; lra).
      pose proof (Hpos F F0). nra.
    + assert (F <= 0) as F0 by (unfold F; lra).
      pose proof (Hneg F F0). nra.
    + assert (F = 0) as F0 by (unfold F; lra).
      rewrite Hsp', F0. split; ring.
Qed.

Lemma speed_follows_net_force_witness :
  exists st', tick level_rest_state = Some st' /\
    speed st' <= speed level_rest_state.
Proof.
  destruct (tick_defined level_rest_state) as [st' H]; [simpl; lra|].
  exists st'. split; [exact H|].
  refine (proj1 (proj2 (speed_follows_net_force level_rest_state st'
                          level_rest_state_reachable eq_refl H)) _).
  pose proof (friction_force_nonneg _
                (reachable_inv _ level_rest_state_reachable)) as HF.
  assert (gravity_parallel level_rest_state = 0) as HG.
  { unfold gravity_parallel. simpl angle_rad. unfold radians.
    replace (0 * PI / 180) with 0 by lra. rewrite sin_0. ring. }
  pose proof (drag_force_nonneg level_rest_state). lra.
Defined.
